(** * XcalPeephole: the Xcalibyte RISC-V peephole pass

    A shallow embedding of
    [llvm/lib/Target/RISCV/XcalPasses/XcalPeephole.cpp]: the two pattern
    recognizers ([getLIOperands], [getCondBranchOperands]), the two block
    transforms ([eliminateJumpToExitBlock],
    [eliminateAssignAfterBranchTest]) and the driver
    ([runOnMachineFunction]), followed by the properties established for
    them.

    Conventions of the embedding:
    - a [MachineBasicBlock*] is the position of the block in the layout
      order of its function; the pass never adds, removes or reorders
      blocks, so positions are stable identities;
    - a reference out-parameter ([Register &Reg], [int64_t &Imm]) is an
      argument holding the value on entry and a component of the result
      holding the value on exit; an [int64_t] local that is declared
      without initializer is the cell [None];
    - an assertion failure or undefined access of the C++ code (operand
      index out of range, accessor of the wrong operand kind, null block
      pointer) is the result [Fault]. *)

From stdpp Require Import base decidable option list.
From Stdlib Require Import ZArith NArith Lia.

(** ** Results of fallible code *)

Inductive fault : Type :=
  | NullBlock          (* a null MachineBasicBlock* is dereferenced *)
  | InvalidBlock       (* a block pointer that is not a block of the function *)
  | EmptyBlock         (* front() / back() of an empty block *)
  | OperandOutOfRange  (* getOperand(i) with i >= getNumOperands() *)
  | OperandKind        (* getReg / getImm / getMBB on another operand kind *)
  | Indeterminate.     (* an uninitialized int64_t is read *)

Inductive result (A : Type) : Type :=
  | Ok (a : A)
  | Fault (f : fault).
Arguments Ok {A} a.
Arguments Fault {A} f.

#[global] Instance result_ret : MRet result := fun A a => Ok a.
#[global] Instance result_bind : MBind result := fun A B k m =>
  match m with
  | Ok a => k a
  | Fault f => Fault f
  end.

Definition is_Ok {A} (r : result A) : Prop := exists a, r = Ok a.

(** ** Data model

    The classes of LLVM that the pass works on are declared in headers
    outside XcalPeephole.cpp; each is modelled from the data model of the
    specification, with the names of the C++ classes and accessors. *)

(** Modelled from the spec: [llvm::Register], the id of a register, an
    unsigned number; the default constructed register has id 0. *)
Definition Register : Type := N.
Definition NoRegister : Register := 0%N.

(** The values of [int64_t] are compared and copied, never computed with:
    they are integers, without a wrap-around to write out. *)
Definition int64_t : Type := Z.

(** A [MachineBasicBlock*] that is not null. *)
Definition BlockRef : Type := nat.

(** Modelled from the spec: [llvm::DebugLoc], the optional debug-location
    tag of an instruction, carried opaquely. *)
Definition DebugLoc : Type := option N.

(** Modelled from the spec: [llvm::MachineOperand], a tagged union of a
    register and an immediate constant, of the target block of a branch,
    and of the kinds the pass does not look at. *)
Inductive MachineOperand : Type :=
  | MO_Register (r : Register)
  | MO_Immediate (i : int64_t)
  | MO_MachineBasicBlock (b : BlockRef)
  | MO_Other.

(** Modelled from the spec: the opcodes, a closed variant with one case per
    opcode the pass names ([TargetOpcode::COPY] and the [RISCV::] ones) and
    a catch-all for every other opcode; the numbering is in generated
    tables. *)
Inductive Opcode : Type :=
  | COPY | ADDI | BEQ | BNE | C_BEQZ | C_BNEZ | C_LI | PseudoRET
  | OtherOpcode (n : N).

#[global] Instance Opcode_eq_dec : EqDecision Opcode.
Proof. solve_decision. Defined.

(** Modelled from the spec: the classification of an instruction that
    [MachineInstr::isReturn], [isUnconditionalBranch] and
    [isConditionalBranch] read off its descriptor; the descriptor tables are
    generated and the three predicates are in MachineInstr.h.  The
    specification gives an instruction one classification among
    unconditional jump, conditional branch, return and other. *)
Inductive InstrClass : Type :=
  | Return | UnconditionalBranch | ConditionalBranch | Ordinary.

#[global] Instance InstrClass_eq_dec : EqDecision InstrClass.
Proof. solve_decision. Defined.

(** Modelled from the spec: [llvm::MCInstrDesc], the opcode and the
    classification of an instruction. *)
Record MCInstrDesc : Type := mkDesc {
  descOpcode : Opcode;
  descClass : InstrClass
}.

(** Modelled from the spec: [llvm::MachineInstr], with its descriptor, its
    ordered operands and its debug location.  The identity of an
    instruction is its position in its block. *)
Record MachineInstr : Type := mkInstr {
  MCID : MCInstrDesc;
  Operands : list MachineOperand;
  DbgLoc : DebugLoc
}.

(** Modelled from the spec: [llvm::MachineBasicBlock], an ordered sequence
    of instructions and the predecessor blocks, in the order in which
    [predecessors()] yields them. *)
Record MachineBasicBlock : Type := mkBlock {
  Insts : list MachineInstr;
  Predecessors : list BlockRef
}.

(** Modelled from the spec: [llvm::MachineFunction], its blocks in layout
    order. *)
Abbreviation MachineFunction := (list MachineBasicBlock).

(** ** Accessors of LLVM used by the pass *)

(** Modelled from the spec: [MachineInstr::getOpcode]. *)
Definition getOpcode (Inst : MachineInstr) : Opcode := descOpcode (MCID Inst).

(** Modelled from the spec: [MachineInstr::isReturn]. *)
Definition isReturn (Inst : MachineInstr) : bool :=
  bool_decide (descClass (MCID Inst) = Return).

(** Modelled from the spec: [MachineInstr::isUnconditionalBranch]. *)
Definition isUnconditionalBranch (Inst : MachineInstr) : bool :=
  bool_decide (descClass (MCID Inst) = UnconditionalBranch).

(** Modelled from the spec: [MachineInstr::isConditionalBranch]. *)
Definition isConditionalBranch (Inst : MachineInstr) : bool :=
  bool_decide (descClass (MCID Inst) = ConditionalBranch).

(** Modelled from the spec: [MachineInstr::isCopy], the test for the opcode
    of the register copy. *)
Definition isCopy (Inst : MachineInstr) : bool :=
  bool_decide (getOpcode Inst = COPY).

(** Modelled from the spec: [MachineInstr::getDebugLoc]. *)
Definition getDebugLoc (Inst : MachineInstr) : DebugLoc := DbgLoc Inst.

(** Modelled from the spec: [MachineInstr::getOperand], which asserts that
    the index is below the number of operands. *)
Definition getOperand (Inst : MachineInstr) (i : nat) : result MachineOperand :=
  match Operands Inst !! i with
  | Some MO => Ok MO
  | None => Fault OperandOutOfRange
  end.

(** Modelled from the spec: [MachineOperand::isReg]. *)
Definition isReg (MO : MachineOperand) : bool :=
  match MO with MO_Register _ => true | _ => false end.

(** Modelled from the spec: [MachineOperand::isImm]. *)
Definition isImm (MO : MachineOperand) : bool :=
  match MO with MO_Immediate _ => true | _ => false end.

(** Modelled from the spec: [MachineOperand::getReg], which asserts that
    the operand is a register. *)
Definition getReg (MO : MachineOperand) : result Register :=
  match MO with MO_Register r => Ok r | _ => Fault OperandKind end.

(** Modelled from the spec: [MachineOperand::getImm], which asserts that
    the operand is an immediate. *)
Definition getImm (MO : MachineOperand) : result int64_t :=
  match MO with MO_Immediate i => Ok i | _ => Fault OperandKind end.

(** Modelled from the spec: [MachineOperand::getMBB], which asserts that
    the operand is a block. *)
Definition getMBB (MO : MachineOperand) : result BlockRef :=
  match MO with MO_MachineBasicBlock b => Ok b | _ => Fault OperandKind end.

(** Dereferencing a block pointer of the function [MF]. *)
Definition block (MF : MachineFunction) (b : BlockRef) : result MachineBasicBlock :=
  match MF !! b with
  | Some B => Ok B
  | None => Fault InvalidBlock
  end.

(** Dereferencing a possibly null block pointer. *)
Definition deref (Target : option BlockRef) : result BlockRef :=
  match Target with
  | Some t => Ok t
  | None => Fault NullBlock
  end.

(** Modelled from the spec: [MachineBasicBlock::empty]. *)
Definition empty (B : MachineBasicBlock) : bool :=
  match Insts B with [] => true | _ => false end.

(** Modelled from the spec: [MachineBasicBlock::size]. *)
Definition size (B : MachineBasicBlock) : nat := length (Insts B).

(** Modelled from the spec: [MachineBasicBlock::front], the first
    instruction of a block that is not empty. *)
Definition front (B : MachineBasicBlock) : result MachineInstr :=
  match head (Insts B) with
  | Some MI => Ok MI
  | None => Fault EmptyBlock
  end.

(** Modelled from the spec: [MachineBasicBlock::back], the last instruction
    of a block that is not empty. *)
Definition back (B : MachineBasicBlock) : result MachineInstr :=
  match last (Insts B) with
  | Some MI => Ok MI
  | None => Fault EmptyBlock
  end.

(** Reading an [int64_t] cell. *)
Definition load (c : option int64_t) : result int64_t :=
  match c with
  | Some i => Ok i
  | None => Fault Indeterminate
  end.

(** Modelled from the spec: whether a block ends in an unconditional
    transfer, an unconditional branch or a return. *)
Definition endsInUnconditionalTransfer (B : MachineBasicBlock) : bool :=
  match last (Insts B) with
  | Some MI => isUnconditionalBranch MI || isReturn MI
  | None => false
  end.

(** Modelled from the spec: [MachineBasicBlock::getFallThrough], whose
    body is in MachineBasicBlock.cpp.  The fallthrough successor, if
    present, is the next block in layout order, and it is defined only when
    the block does not end in an unconditional transfer; it is null
    otherwise. *)
Definition getFallThrough (MF : MachineFunction) (b : BlockRef) : option BlockRef :=
  match MF !! b, MF !! S b with
  | Some B, Some _ => if endsInUnconditionalTransfer B then None else Some (S b)
  | _, _ => None
  end.

(** Modelled from the spec: [TII->get(RISCV::PseudoRET)], the descriptor of
    the return instruction that Transform A synthesizes; the instruction
    tables are generated. *)
Definition PseudoRET_desc : MCInstrDesc := mkDesc PseudoRET Return.

(** Modelled from the spec: [BuildMI(&MBB, DL, MCID)], which appends to
    the block a new instruction without operands, of the given descriptor
    and debug location. *)
Definition BuildMI (MF : MachineFunction) (MBB : BlockRef) (DL : DebugLoc)
    (D : MCInstrDesc) : MachineFunction :=
  match MF !! MBB with
  | Some B => <[MBB := mkBlock (Insts B ++ [mkInstr D [] DL]) (Predecessors B)]> MF
  | None => MF
  end.

(** Modelled from the spec: [MI.eraseFromParent()], for the instruction at
    position [i] of block [MBB]: it is unlinked from its block, the others
    keep their order. *)
Definition eraseFromParent (MF : MachineFunction) (MBB : BlockRef) (i : nat)
    : MachineFunction :=
  match MF !! MBB with
  | Some B => <[MBB := mkBlock (delete i (Insts B)) (Predecessors B)]> MF
  | None => MF
  end.

(** ** The pass *)

Section XcalPeephole.

(** [RISCV::X0], the id of the zero register; its value is in the generated
    register table, and nothing below depends on it. *)
Variable X0 : Register.

(** check if the Operand is the register "x0" *)
Definition isRegX0 (Operand : MachineOperand) : bool :=
  match Operand with
  | MO_Register r => bool_decide (r = X0)
  | _ => false
  end.

(** get "li" instruction's operands.  [Reg] and [Imm] are the contents of
    the out-parameters on entry; the result carries the returned boolean
    and their contents on exit. *)
Definition getLIOperands (Inst : MachineInstr) (Reg : Register)
    (Imm : option int64_t) : result (bool * Register * option int64_t) :=
  if decide (getOpcode Inst = C_LI) then
    Reg ← getOperand Inst 0 ≫= getReg;
    Imm ← getOperand Inst 1 ≫= getImm;
    mret (true, Reg, Some Imm)
  else
    (* the ADDI case either returns true or falls through with Reg written *)
    r ← (if decide (getOpcode Inst = ADDI) then
           LHS ← getOperand Inst 1;
           RHS ← getOperand Inst 2;
           Reg ← getOperand Inst 0 ≫= getReg;
           if isRegX0 LHS && isImm RHS then
             Imm ← getImm RHS; mret (inl (true, Reg, Some Imm))
           else if isImm LHS && isRegX0 RHS then
             Imm ← getImm LHS; mret (inl (true, Reg, Some Imm))
           else mret (inr Reg)
         else mret (inr Reg));
    match r with
    | inl matched => mret matched
    | inr Reg =>
        if isCopy Inst then
          Op1 ← getOperand Inst 1;
          if isRegX0 Op1 then
            Reg ← getOperand Inst 0 ≫= getReg;
            mret (true, Reg, Some 0%Z)
          else mret (false, Reg, Imm)
        else mret (false, Reg, Imm)
    end.

(** try to get register and immediate number as operand; return true if
    you get them successfully.  [Parent] is [Inst.getParent()].  [Target]
    is [None] when the caller passes a null [MachineBasicBlock **], and
    [Some t] when it passes the address of a pointer that holds [t]; the
    last component of the result is that pointer on exit. *)
Definition getCondBranchOperands (MF : MachineFunction) (Parent : BlockRef)
    (Inst : MachineInstr) (Reg : Register) (Imm : option int64_t)
    (Target : option (option BlockRef))
    : result (bool * Register * option int64_t * option (option BlockRef)) :=
  let Opcode := getOpcode Inst in
  if decide (Opcode = BEQ ∨ Opcode = BNE) then
    LHS ← getOperand Inst 0;
    RHS ← getOperand Inst 1;
    Target ← match Target with
             | Some _ =>
                 if decide (Opcode = BEQ) then
                   T ← getOperand Inst 2 ≫= getMBB; mret (Some (Some T))
                 else mret (Some (getFallThrough MF Parent))
             | None => mret None
             end;
    if isReg LHS && (isImm RHS || isRegX0 RHS) then
      Reg ← getReg LHS;
      Imm ← (if isRegX0 RHS then mret 0%Z else getImm RHS);
      mret (true, Reg, Some Imm, Target)
    else if (isImm LHS || isRegX0 LHS) && isReg RHS then
      Imm ← (if isRegX0 LHS then mret 0%Z else getImm LHS);
      Reg ← getReg RHS;
      mret (true, Reg, Some Imm, Target)
    else mret (false, Reg, Imm, Target)
  else if decide (Opcode = C_BEQZ ∨ Opcode = C_BNEZ) then
    Reg ← getOperand Inst 0 ≫= getReg;
    Target ← match Target with
             | Some _ =>
                 if decide (Opcode = C_BEQZ) then
                   T ← getOperand Inst 2 ≫= getMBB; mret (Some (Some T))
                 else mret (Some (getFallThrough MF Parent))
             | None => mret None
             end;
    mret (true, Reg, Some 0%Z, Target)
  else
    (* ignore other conditional branch *)
    mret (false, Reg, Imm, Target).

(** Transform A.
<<
   j .LBB0_1             ret
   ...            ===>
 .LBB0_1
   ret
>>
    The result carries [Changed] and the function after the edits. *)
Definition eliminateJumpToExitBlock (MF : MachineFunction) (MBB : BlockRef)
    : result (bool * MachineFunction) :=
  B ← block MF MBB;
  if empty B then mret (false, MF)
  else
    LastInst ← back B;
    if isUnconditionalBranch LastInst then
      Target ← getOperand LastInst 0 ≫= getMBB;
      T ← block MF Target;
      IsRet ← (if bool_decide (size T = 1)
               then Front ← front T; mret (isReturn Front)
               else mret false : result bool);
      if IsRet : bool then
        (* insert ret instruction *)
        let MF := BuildMI MF MBB (getDebugLoc LastInst) PseudoRET_desc in
        (* delete jump instruction *)
        let MF := eraseFromParent MF MBB (pred (size B)) in
        mret (true, MF)
      else mret (false, MF)
    else mret (false, MF).

(** The loop of Transform B over [Target->predecessors()]: check if this
    li instruction is removable.  The result is [Removable] on exit of the
    loop; [continue] is the recursive call and [break] returns. *)
Fixpoint predecessorsRemovable (MF : MachineFunction) (Dst : Register)
    (Imm : int64_t) (Preds : list BlockRef) : result bool :=
  match Preds with
  | [] => mret true
  | Pred :: Preds =>
      P ← block MF Pred;
      if empty P then predecessorsRemovable MF Dst Imm Preds
      else
        PLastInst ← back P;
        if negb (isConditionalBranch PLastInst) then mret false
        else
          (* get operands of predecessor's last instruction *)
          '(Res, PReg, PImm, _) ←
            getCondBranchOperands MF Pred PLastInst NoRegister None None;
          if negb Res then mret false
          else
            PImm ← load PImm;
            if bool_decide (PReg = Dst) && bool_decide (PImm = Imm)
            then predecessorsRemovable MF Dst Imm Preds
            else mret false
  end.

(** Transform B.
<<
   beqz a0, .LBB0_4          beqz a0, .LBB0_4
   ...                       ...
 .LBB0_4            =>     .LBB0_4
   li a0, 0                  ...
   ...
>>
    The call [Target->getFallThrough()] before the erasure is a query whose
    value is dropped, and the two lines written to [outs()] are not part of
    the function; neither is represented. *)
Definition eliminateAssignAfterBranchTest (MF : MachineFunction) (MBB : BlockRef)
    : result (bool * MachineFunction) :=
  B ← block MF MBB;
  if empty B then mret (false, MF)
  else
    LastInst ← back B;
    if isConditionalBranch LastInst then
      '(Res, Reg, Imm, Target) ←
        getCondBranchOperands MF MBB LastInst NoRegister None (Some None);
      if negb Res then mret (false, MF)
      else
        (* check the first instruction *)
        Target ← deref (default None Target);
        T ← block MF Target;
        if bool_decide (size T = 0) then mret (false, MF)
        else
          Head ← front T;
          '(IsLI, Dst, LiImm) ← getLIOperands Head NoRegister None;
          if IsLI : bool then
            LiImm ← load LiImm;
            Imm ← load Imm;
            if bool_decide (Dst = Reg) && bool_decide (LiImm = Imm) then
              Removable ← predecessorsRemovable MF Dst Imm (Predecessors T);
              if negb Removable then mret (false, MF)
              else mret (true, eraseFromParent MF Target 0)
            else mret (false, MF)
          else mret (false, MF)
    else mret (false, MF).

(** The body of the driver's loop [for (auto &MBB : MF)], over the blocks
    that remain to be visited. *)
Fixpoint visitBlocks (MF : MachineFunction) (Changed : bool)
    (MBBs : list BlockRef) : result (bool * MachineFunction) :=
  match MBBs with
  | [] => mret (Changed, MF)
  | MBB :: MBBs =>
      '(Changed, MF) ← eliminateJumpToExitBlock MF MBB;
      '(Changed', MF) ← eliminateAssignAfterBranchTest MF MBB;
      visitBlocks MF (Changed || Changed') MBBs
  end.

(** The driver.  The assignments to [TII] and [MRI] only cache the
    target's tables. *)
Definition runOnMachineFunction (MF : MachineFunction)
    : result (bool * MachineFunction) :=
  visitBlocks MF false (seq 0 (length MF)).

End XcalPeephole.

(** ** Predicates of the statements *)

Section Predicates.

Variable X0 : Register.

(** What the loop of Transform B accepts of a predecessor [p] of the
    target: [p] is empty, or its last instruction is a conditional branch
    that [getCondBranchOperands], called without a target pointer, accepts
    with the pair [(Dst, Imm)]. *)
Definition predecessorPasses (MF : MachineFunction) (Dst : Register)
    (Imm : int64_t) (p : BlockRef) : Prop :=
  exists P, MF !! p = Some P
    /\ (Insts P = []
        \/ exists PLastInst,
             last (Insts P) = Some PLastInst
             /\ isConditionalBranch PLastInst = true
             /\ getCondBranchOperands X0 MF p PLastInst NoRegister None None
                  = Ok (true, Dst, Some Imm, None)).

(** The check of a predecessor in the words of the specification: [p] must
    be non-empty, its last instruction must be a conditional branch that
    the recognizer accepts, and the pair that the recognizer resolves for
    the "equal" outcome of [p] reaching the target block [t] must be
    [(Dst, Imm)]: asked for the target, the recognizer answers [t]. *)
Definition specPredecessorProves (MF : MachineFunction) (Dst : Register)
    (Imm : int64_t) (t : BlockRef) (p : BlockRef) : Prop :=
  exists P PLastInst,
    MF !! p = Some P
    /\ last (Insts P) = Some PLastInst
    /\ isConditionalBranch PLastInst = true
    /\ getCondBranchOperands X0 MF p PLastInst NoRegister None (Some None)
         = Ok (true, Dst, Some Imm, Some (Some t)).

(** The removal condition in the words of the specification, for the
    target block [T] at position [t]. *)
Definition specRemovable (MF : MachineFunction) (Reg : Register)
    (Imm : int64_t) (t : BlockRef) (T : MachineBasicBlock) : Prop :=
  exists Head, head (Insts T) = Some Head
    /\ getLIOperands X0 Head NoRegister None = Ok (true, Reg, Some Imm)
    /\ Forall (specPredecessorProves MF Reg Imm t) (Predecessors T).

(** The check of a predecessor with the one change that the code has by
    design: an empty predecessor is skipped; a predecessor that is not
    empty must prove [(Dst, Imm)] as the specification has it. *)
Definition predecessorProves (MF : MachineFunction) (Dst : Register)
    (Imm : int64_t) (t : BlockRef) (p : BlockRef) : Prop :=
  (exists P, MF !! p = Some P /\ Insts P = [])
  \/ specPredecessorProves MF Dst Imm t p.

(** A predecessor that fails the check in one of the ways the
    specification lists: it is not empty and its last instruction is not
    a conditional branch (non-branch terminator), or is one that the
    recognizer rejects (unrecognized branch form), or is one that the
    recognizer accepts with another register or another constant
    (mismatched pair). *)
Definition predecessorFails (MF : MachineFunction) (Dst : Register)
    (Imm : int64_t) (p : BlockRef) : Prop :=
  exists P PLastInst,
    MF !! p = Some P
    /\ last (Insts P) = Some PLastInst
    /\ (isConditionalBranch PLastInst = false
        \/ (isConditionalBranch PLastInst = true
            /\ exists Res PReg PImm Target,
                 getCondBranchOperands X0 MF p PLastInst NoRegister None None
                   = Ok (Res, PReg, PImm, Target)
                 /\ (Res = false \/ PReg <> Dst \/ PImm <> Some Imm))).

(** A block that ends in a conditional branch which the recognizer, asked
    for the target, accepts. *)
Definition endsInRecognizedBranch (MF : MachineFunction) (b : BlockRef)
    (LastInst : MachineInstr) (Reg : Register) (Imm : option int64_t)
    (Target : option BlockRef) : Prop :=
  exists B, MF !! b = Some B
    /\ last (Insts B) = Some LastInst
    /\ isConditionalBranch LastInst = true
    /\ getCondBranchOperands X0 MF b LastInst NoRegister None (Some None)
         = Ok (true, Reg, Imm, Some Target).

End Predicates.

(** ** Measures of a function *)

Section Measures.

(** The number of instructions of a function. *)
Definition numInsts (MF : MachineFunction) : nat := sum_list_with size MF.

(** A weight that counts every instruction once and every unconditional
    branch once more. *)
Definition instWeight (Inst : MachineInstr) : nat :=
  if isUnconditionalBranch Inst then 2 else 1.

Definition blockWeight (B : MachineBasicBlock) : nat :=
  sum_list_with instWeight (Insts B).

Definition weight (MF : MachineFunction) : nat := sum_list_with blockWeight MF.

(** [MF'] has the blocks of [MF], in the same order and with the same
    predecessor lists, and no block has grown. *)
Definition shrinksTo (MF MF' : MachineFunction) : Prop :=
  Forall2 (fun B B' => Predecessors B' = Predecessors B /\ size B' <= size B)
    MF MF'.

End Measures.

(** ** Sample functions *)

(** An id for the zero register in the samples. *)
Definition sampleX0 : Register := 1%N.

Definition sampleInst (Op : Opcode) (C : InstrClass)
    (Ops : list MachineOperand) (DL : DebugLoc) : MachineInstr :=
  mkInstr (mkDesc Op C) Ops DL.

Definition sampleBEQ (r : Register) (i : int64_t) (t : BlockRef) : MachineInstr :=
  sampleInst BEQ ConditionalBranch
    [MO_Register r; MO_Immediate i; MO_MachineBasicBlock t] None.

Definition sampleLI (r : Register) (i : int64_t) : MachineInstr :=
  sampleInst C_LI Ordinary [MO_Register r; MO_Immediate i] None.

Definition sampleRET : MachineInstr := sampleInst PseudoRET Return [] None.

(** An unconditional jump, with a debug location. *)
Definition sampleJ (t : BlockRef) : MachineInstr :=
  sampleInst (OtherOpcode 0) UnconditionalBranch [MO_MachineBasicBlock t]
    (Some 42%N).

(** bb0: [beq r5, 7, bb2];  bb1: empty;  bb2: [li r5, 7; ret], reached
    from bb0 by the branch and from bb1 by falling through. *)
Definition sampleAssign : MachineFunction :=
  [ mkBlock [sampleBEQ 5%N 7%Z 2] [];
    mkBlock [] [0];
    mkBlock [sampleLI 5%N 7%Z; sampleRET] [0; 1] ].

Definition sampleAssign_erased : MachineFunction :=
  [ mkBlock [sampleBEQ 5%N 7%Z 2] [];
    mkBlock [] [0];
    mkBlock [sampleRET] [0; 1] ].

(** bb0: [beq r5, 7, bb2];  bb1: [beq r5, 8, bb2];  bb2: [li r5, 7; ret]:
    one predecessor tests another constant. *)
Definition sampleMismatch : MachineFunction :=
  [ mkBlock [sampleBEQ 5%N 7%Z 2] [];
    mkBlock [sampleBEQ 5%N 8%Z 2] [0];
    mkBlock [sampleLI 5%N 7%Z; sampleRET] [0; 1] ].

(** bb0: [j bb1];  bb1: [ret]. *)
Definition sampleJump : MachineFunction :=
  [ mkBlock [sampleJ 1] [];
    mkBlock [sampleRET] [0] ].

Definition sampleJump_threaded : MachineFunction :=
  [ mkBlock [sampleInst PseudoRET Return [] (Some 42%N)] [];
    mkBlock [sampleRET] [0] ].

(** A single block [bne r5, 7, bb0]: nothing follows it in the layout. *)
Definition sampleLastBNE : MachineFunction :=
  [ mkBlock [sampleInst BNE ConditionalBranch
               [MO_Register 5%N; MO_Immediate 7%Z; MO_MachineBasicBlock 0]
               None] [0] ].

(** [addi r5, r6, 7]: an ADDI that assigns no constant. *)
Definition sampleADDI : MachineInstr :=
  sampleInst ADDI Ordinary
    [MO_Register 5%N; MO_Register 6%N; MO_Immediate 7%Z] None.

(** [c.beqz r5, bb1] in the encoding (register, target). *)
Definition sampleBEQZ : MachineInstr :=
  sampleInst C_BEQZ ConditionalBranch
    [MO_Register 5%N; MO_MachineBasicBlock 1] None.

(** A [bne] between two immediates. *)
Definition sampleBNEImm : MachineInstr :=
  sampleInst BNE ConditionalBranch
    [MO_Immediate 1%Z; MO_Immediate 2%Z; MO_MachineBasicBlock 2] None.

(** [bne r5, 7, bb]: taken when r5 differs from 7. *)
Definition sampleBNE (r : Register) (i : int64_t) (t : BlockRef) : MachineInstr :=
  sampleInst BNE ConditionalBranch
    [MO_Register r; MO_Immediate i; MO_MachineBasicBlock t] None.

(** bb0: [beq r5, 7, bb3];  bb1: [bne r5, 7, bb3];  bb2: [ret];
    bb3: [li r5, 7; ret].  bb1 reaches bb3 when r5 is not 7. *)
Definition samplePolarity : MachineFunction :=
  [ mkBlock [sampleBEQ 5%N 7%Z 3] [];
    mkBlock [sampleBNE 5%N 7%Z 3] [0];
    mkBlock [sampleRET] [1];
    mkBlock [sampleLI 5%N 7%Z; sampleRET] [0; 1] ].

Definition samplePolarity_erased : MachineFunction :=
  [ mkBlock [sampleBEQ 5%N 7%Z 3] [];
    mkBlock [sampleBNE 5%N 7%Z 3] [0];
    mkBlock [sampleRET] [1];
    mkBlock [sampleRET] [0; 1] ].

(** bb0: [beq r5, 7, bb2];  bb1: [ret];  bb2: [j bb1]: the last block of
    the layout jumps to a block that only returns. *)
Definition sampleJumpLast : MachineFunction :=
  [ mkBlock [sampleBEQ 5%N 7%Z 2] [];
    mkBlock [sampleRET] [0; 2];
    mkBlock [sampleJ 1] [0] ].

Definition sampleJumpLast_threaded : MachineFunction :=
  [ mkBlock [sampleBEQ 5%N 7%Z 2] [];
    mkBlock [sampleRET] [0; 2];
    mkBlock [sampleInst PseudoRET Return [] (Some 42%N)] [0] ].

(** A single block [li r5, 7; ret]: no branch at all. *)
Definition sampleStraight : MachineFunction :=
  [ mkBlock [sampleLI 5%N 7%Z; sampleRET] [] ].

(** ** Properties *)

Section Properties.

Variable X0 : Register.

(** *** Helper lemmas *)

Lemma bind_Ok {A B : Type} (m : result A) (k : A -> result B) (b : B) :
  m ≫= k = Ok b -> exists a, m = Ok a /\ k a = Ok b.
Proof. destruct m as [a|f]; simpl; [eauto | discriminate]. Qed.

Lemma bind_Fault {A B : Type} (m : result A) (k : A -> result B) (f : fault) :
  m ≫= k = Fault f -> m = Fault f \/ exists a, m = Ok a /\ k a = Fault f.
Proof. destruct m as [a|f']; simpl; [eauto | intros [= ->]; by left]. Qed.

Lemma isCopy_false (Inst : MachineInstr) :
  getOpcode Inst <> COPY -> isCopy Inst = false.
Proof. intros H. unfold isCopy. by apply bool_decide_eq_false. Qed.

Lemma isRegX0_false (MO : MachineOperand) :
  MO <> MO_Register X0 -> isRegX0 X0 MO = false.
Proof.
  destruct MO as [r| | |]; simpl; try done.
  intros H. apply bool_decide_eq_false. congruence.
Qed.

(** C4. The three syntactic forms of "assign constant [C] to register [R]"
    are recognized alike by [getLIOperands]: [C_LI R, C], [ADDI R, x0, C],
    [ADDI R, C, x0] all yield a match with [(R, C)], and [COPY R, x0]
    yields a match with [(R, 0)]; the class, the debug location, operands
    after those read and the contents of the out-parameters on entry do not
    matter.  Every other instruction is not recognized: an instruction of
    another opcode, which leaves both out-parameters as they were; an
    [ADDI] whose two sources are not the zero register and an immediate,
    in one order or the other; and a [COPY] whose source is not the zero
    register. *)
Theorem getLIOperands_forms (R : Register) (C : int64_t) (cls : InstrClass)
    (DL : DebugLoc) (rest : list MachineOperand) (Reg : Register)
    (Imm : option int64_t) :
  getLIOperands X0
    (mkInstr (mkDesc C_LI cls) (MO_Register R :: MO_Immediate C :: rest) DL)
    Reg Imm = Ok (true, R, Some C)
  /\ getLIOperands X0
       (mkInstr (mkDesc ADDI cls)
          (MO_Register R :: MO_Register X0 :: MO_Immediate C :: rest) DL)
       Reg Imm = Ok (true, R, Some C)
  /\ getLIOperands X0
       (mkInstr (mkDesc ADDI cls)
          (MO_Register R :: MO_Immediate C :: MO_Register X0 :: rest) DL)
       Reg Imm = Ok (true, R, Some C)
  /\ getLIOperands X0
       (mkInstr (mkDesc COPY cls) (MO_Register R :: MO_Register X0 :: rest) DL)
       Reg Imm = Ok (true, R, Some 0%Z)
  /\ (forall Inst : MachineInstr,
        getOpcode Inst <> C_LI -> getOpcode Inst <> ADDI ->
        getOpcode Inst <> COPY ->
        getLIOperands X0 Inst Reg Imm = Ok (false, Reg, Imm))
  /\ (forall LHS RHS : MachineOperand,
        LHS <> MO_Register X0 \/ isImm RHS = false ->
        isImm LHS = false \/ RHS <> MO_Register X0 ->
        getLIOperands X0
          (mkInstr (mkDesc ADDI cls) (MO_Register R :: LHS :: RHS :: rest) DL)
          Reg Imm = Ok (false, R, Imm))
  /\ (forall Dst Src : MachineOperand,
        Src <> MO_Register X0 ->
        getLIOperands X0
          (mkInstr (mkDesc COPY cls) (Dst :: Src :: rest) DL)
          Reg Imm = Ok (false, Reg, Imm)).
Proof.
  split; [reflexivity|].
  split; [unfold getLIOperands; simpl; by rewrite bool_decide_eq_true_2|].
  split; [unfold getLIOperands; simpl; by rewrite bool_decide_eq_true_2|].
  split; [unfold getLIOperands; simpl; by rewrite bool_decide_eq_true_2|].
  split; [|split].
  - intros Inst Hli Haddi Hcopy. unfold getLIOperands.
    destruct (decide (getOpcode Inst = C_LI)) as [|_]; [done|].
    destruct (decide (getOpcode Inst = ADDI)) as [|_]; [done|].
    simpl. by rewrite isCopy_false.
  - intros LHS RHS H1 H2.
    assert (E1 : isRegX0 X0 LHS && isImm RHS = false).
    { destruct H1 as [H1 | ->]; [|apply andb_false_r].
      by rewrite (isRegX0_false _ H1). }
    assert (E2 : isImm LHS && isRegX0 X0 RHS = false).
    { destruct H2 as [-> | H2]; [done|].
      rewrite (isRegX0_false _ H2). apply andb_false_r. }
    unfold getLIOperands, getOperand, getOpcode, isCopy; cbn -[isRegX0 isImm].
    by rewrite E1, E2.
  - intros Dst Src HSrc.
    unfold getLIOperands, getOperand, getOpcode, isCopy; cbn -[isRegX0].
    by rewrite (isRegX0_false _ HSrc).
Qed.

(** C7, as amended.  Whenever [getLIOperands] returns, it returns either a
    match, and then the immediate out-parameter holds a value, or no match,
    and then the immediate out-parameter is as on entry; the register
    out-parameter is as on entry unless the instruction is an [ADDI], for
    which it has been overwritten with the destination register before the
    operands were tested. *)
Theorem getLIOperands_no_match_frame (Inst : MachineInstr) (Reg Reg' : Register)
    (Imm Imm' : option int64_t) (matched : bool) :
  getLIOperands X0 Inst Reg Imm = Ok (matched, Reg', Imm') ->
  (matched = true -> exists i, Imm' = Some i)
  /\ (matched = false ->
      Imm' = Imm
      /\ (getOpcode Inst <> ADDI -> Reg' = Reg)
      /\ (getOpcode Inst = ADDI -> getOperand Inst 0 = Ok (MO_Register Reg'))).
Proof.
  unfold getLIOperands.
  destruct (decide (getOpcode Inst = C_LI)) as [Hli|Hli].
  { destruct (getOperand Inst 0) as [[]|]; simpl; try discriminate.
    destruct (getOperand Inst 1) as [[]|]; simpl; try discriminate.
    intros [= <- <- <-]. split; [eauto | discriminate]. }
  destruct (decide (getOpcode Inst = ADDI)) as [Haddi|Haddi].
  - destruct (getOperand Inst 1) as [LHS|]; simpl; [|discriminate].
    destruct (getOperand Inst 2) as [RHS|]; simpl; [|discriminate].
    destruct (getOperand Inst 0) as [[r| | |]|]; simpl; try discriminate.
    rewrite isCopy_false by (rewrite Haddi; discriminate).
    destruct (isRegX0 X0 LHS && isImm RHS) eqn:E1.
    { destruct RHS; simpl; try discriminate.
      intros [= <- <- <-]. split; [eauto | discriminate]. }
    destruct (isImm LHS && isRegX0 X0 RHS) eqn:E2.
    { destruct LHS; simpl; try discriminate.
      intros [= <- <- <-]. split; [eauto | discriminate]. }
    simpl. intros [= <- <- <-]. split; [discriminate|].
    intros _. repeat split; done.
  - simpl. destruct (isCopy Inst).
    + destruct (getOperand Inst 1) as [Op1|]; simpl; [|discriminate].
      destruct (isRegX0 X0 Op1).
      * destruct (getOperand Inst 0) as [[]|]; simpl; try discriminate.
        intros [= <- <- <-]. split; [eauto | discriminate].
      * simpl. intros [= <- <- <-]. split; [discriminate|]. intros _.
        repeat split; done.
    + simpl. intros [= <- <- <-]. split; [discriminate|]. intros _.
      repeat split; done.
Qed.

(** *** The branch recognizer *)

(** Where the target pointer stands after the recognizer has accepted. *)
Lemma getCondBranchOperands_accept_target (MF : MachineFunction)
    (Parent : BlockRef) (Inst : MachineInstr) (Reg Reg' : Register)
    (Imm Imm' : option int64_t) (T0 : option BlockRef)
    (Target' : option (option BlockRef)) :
  getCondBranchOperands X0 MF Parent Inst Reg Imm (Some T0)
    = Ok (true, Reg', Imm', Target') ->
  (exists T, Target' = Some (Some T))
  \/ ((getOpcode Inst = BNE \/ getOpcode Inst = C_BNEZ)
      /\ Target' = Some (getFallThrough MF Parent)).
Proof.
  unfold getCondBranchOperands. intros H.
  destruct (decide (getOpcode Inst = BEQ \/ getOpcode Inst = BNE)) as [Hop|Hop].
  - apply bind_Ok in H as (LHS & _ & H). apply bind_Ok in H as (RHS & _ & H).
    apply bind_Ok in H as (Tgt & HT & H).
    assert (Target' = Tgt) as ->.
    { destruct LHS, RHS; simpl in H;
        repeat (case_bool_decide; simpl in H); by inversion H. }
    destruct (decide (getOpcode Inst = BEQ)) as [Hbeq|Hbeq].
    + apply bind_Ok in HT as (T & _ & [= <-]). left. by exists T.
    + injection HT as <-. right. split; [tauto | done].
  - destruct (decide (getOpcode Inst = C_BEQZ \/ getOpcode Inst = C_BNEZ))
      as [Hz|Hz]; [|discriminate].
    apply bind_Ok in H as (r & _ & H). apply bind_Ok in H as (Tgt & HT & H).
    injection H as <- <- <-.
    destruct (decide (getOpcode Inst = C_BEQZ)) as [Hbeqz|Hbeqz].
    + apply bind_Ok in HT as (T & _ & [= <-]). left. by exists T.
    + injection HT as <-. right. split; [tauto | done].
Qed.

(** What an acceptance with a target pointer tells: the instruction is one
    of the four equality tests; for [BEQ] and [C_BEQZ] the pointer holds
    the block that the code reads at operand 2, for [BNE] and [C_BNEZ] the
    fallthrough of the branch's block; for the two compare-zero forms the
    constant is 0. *)
Lemma getCondBranchOperands_accept_resolves (MF : MachineFunction)
    (Parent : BlockRef) (Inst : MachineInstr) (Reg Reg' : Register)
    (Imm Imm' : option int64_t) (T0 : option BlockRef)
    (Target' : option (option BlockRef)) :
  getCondBranchOperands X0 MF Parent Inst Reg Imm (Some T0)
    = Ok (true, Reg', Imm', Target') ->
  (getOpcode Inst = BEQ \/ getOpcode Inst = BNE
   \/ getOpcode Inst = C_BEQZ \/ getOpcode Inst = C_BNEZ)
  /\ (getOpcode Inst = BEQ \/ getOpcode Inst = C_BEQZ ->
      exists T, getOperand Inst 2 = Ok (MO_MachineBasicBlock T)
                /\ Target' = Some (Some T))
  /\ (getOpcode Inst = BNE \/ getOpcode Inst = C_BNEZ ->
      Target' = Some (getFallThrough MF Parent))
  /\ (getOpcode Inst = C_BEQZ \/ getOpcode Inst = C_BNEZ -> Imm' = Some 0%Z).
Proof.
  unfold getCondBranchOperands.
  destruct (decide (getOpcode Inst = BEQ \/ getOpcode Inst = BNE)) as [Hop|Hop].
  - destruct (getOperand Inst 0) as [LHS|]; simpl; [|discriminate].
    destruct (getOperand Inst 1) as [RHS|]; simpl; [|discriminate].
    destruct (decide (getOpcode Inst = BEQ)) as [Hbeq|Hbeq].
    + destruct (getOperand Inst 2) as [[| |T|]|]; simpl; try discriminate.
      intros H.
      assert (Target' = Some (Some T)) as ->.
      { destruct LHS, RHS; simpl in H;
          repeat (case_bool_decide; simpl in H); by inversion H. }
      split; [tauto|]. split; [eauto|]. split; intros [?|?]; congruence.
    + assert (getOpcode Inst = BNE) as Hbne by tauto.
      intros H.
      assert (Target' = Some (getFallThrough MF Parent)) as ->.
      { destruct LHS, RHS; simpl in H;
          repeat (case_bool_decide; simpl in H); by inversion H. }
      split; [tauto|]. split; [intros [?|?]; congruence|].
      split; [done|]. intros [?|?]; congruence.
  - destruct (decide (getOpcode Inst = C_BEQZ \/ getOpcode Inst = C_BNEZ))
      as [Hz|Hz]; [|discriminate].
    destruct (getOperand Inst 0) as [[r| | |]|]; simpl; try discriminate.
    destruct (decide (getOpcode Inst = C_BEQZ)) as [Hbeqz|Hbeqz].
    + destruct (getOperand Inst 2) as [[| |T|]|]; simpl; try discriminate.
      intros [= <- <- <-].
      split; [tauto|]. split; [eauto|]. split; [|done].
      intros [?|?]; congruence.
    + assert (getOpcode Inst = C_BNEZ) as Hbnez by tauto.
      simpl. intros [= <- <- <-].
      split; [tauto|]. split; [intros [?|?]; congruence|]. done.
Qed.

(** C3.  Asked for the target, [getCondBranchOperands] resolves the block
    of the "equal" outcome of a test of register [r] against constant [c]:
    for [BEQ r, c, T] it accepts with [T], the explicit target; for
    [BNE r, c, T] it accepts with the fallthrough of the branch's block;
    for [C_BNEZ r, T] it accepts with constant 0 and the fallthrough of
    the branch's block.  For [C_BEQZ r, T], whose explicit target is
    operand 1, it does not resolve [T]: it reads operand 2, which that
    instruction does not have; only without a target pointer is the
    instruction accepted, with constant 0. *)
Theorem getCondBranchOperands_polarity (MF : MachineFunction)
    (Parent : BlockRef) (r : Register) (c : int64_t) (T : BlockRef)
    (cls : InstrClass) (DL : DebugLoc) (Reg : Register)
    (Imm : option int64_t) (T0 : option BlockRef) :
  getCondBranchOperands X0 MF Parent
    (mkInstr (mkDesc BEQ cls)
       [MO_Register r; MO_Immediate c; MO_MachineBasicBlock T] DL)
    Reg Imm (Some T0) = Ok (true, r, Some c, Some (Some T))
  /\ getCondBranchOperands X0 MF Parent
       (mkInstr (mkDesc BNE cls)
          [MO_Register r; MO_Immediate c; MO_MachineBasicBlock T] DL)
       Reg Imm (Some T0)
     = Ok (true, r, Some c, Some (getFallThrough MF Parent))
  /\ getCondBranchOperands X0 MF Parent
       (mkInstr (mkDesc C_BNEZ cls)
          [MO_Register r; MO_MachineBasicBlock T] DL)
       Reg Imm (Some T0)
     = Ok (true, r, Some 0%Z, Some (getFallThrough MF Parent))
  /\ getCondBranchOperands X0 MF Parent
       (mkInstr (mkDesc C_BEQZ cls)
          [MO_Register r; MO_MachineBasicBlock T] DL)
       Reg Imm (Some T0)
     = Fault OperandOutOfRange
  /\ getCondBranchOperands X0 MF Parent
       (mkInstr (mkDesc C_BEQZ cls)
          [MO_Register r; MO_MachineBasicBlock T] DL)
       Reg Imm None
     = Ok (true, r, Some 0%Z, None).
Proof. repeat split. Qed.

(** C9. For a [C_BEQZ] whose operand 0 is a register, and a caller that
    asks for the target: [getCondBranchOperands] returns exactly when
    operand 2 exists and is a block, and then it accepts with that block;
    on an instruction of at most two operands, such as the encoding
    (register, target), the read of operand 2 is out of range.  A caller
    that does not ask for the target triggers no such read. *)
Theorem getCondBranchOperands_C_BEQZ_operand2 (MF : MachineFunction)
    (Parent : BlockRef) (Inst : MachineInstr) (r Reg : Register)
    (Imm : option int64_t) (T0 : option BlockRef) :
  getOpcode Inst = C_BEQZ ->
  Operands Inst !! 0 = Some (MO_Register r) ->
  (is_Ok (getCondBranchOperands X0 MF Parent Inst Reg Imm (Some T0))
   <-> exists T, Operands Inst !! 2 = Some (MO_MachineBasicBlock T))
  /\ (forall T, Operands Inst !! 2 = Some (MO_MachineBasicBlock T) ->
      getCondBranchOperands X0 MF Parent Inst Reg Imm (Some T0)
        = Ok (true, r, Some 0%Z, Some (Some T)))
  /\ (length (Operands Inst) <= 2 ->
      getCondBranchOperands X0 MF Parent Inst Reg Imm (Some T0)
        = Fault OperandOutOfRange)
  /\ getCondBranchOperands X0 MF Parent Inst Reg Imm None
       = Ok (true, r, Some 0%Z, None).
Proof.
  intros Hop H0. unfold getCondBranchOperands, getOperand.
  rewrite Hop, H0.
  destruct (decide (C_BEQZ = BEQ \/ C_BEQZ = BNE)) as [[?|?]|_]; try discriminate.
  destruct (decide (C_BEQZ = C_BEQZ \/ C_BEQZ = C_BNEZ)) as [_|[]]; [|by left].
  destruct (decide (C_BEQZ = C_BEQZ)) as [_|[]]; [|done].
  simpl. repeat split.
  - intros [v Hv]. destruct (Operands Inst !! 2) as [[| |T|]|]; try discriminate.
    by exists T.
  - intros [T ->]. by eexists.
  - by intros T ->.
  - intros Hlen. by rewrite (lookup_ge_None_2 (Operands Inst) 2).
Qed.

(** C10. When [getCondBranchOperands] rejects a [BEQ] or a [BNE] and the
    caller asked for the target, the register and the immediate
    out-parameters are as on entry, but the target pointer has been
    overwritten: with the block operand read at index 2 for [BEQ], with
    the fallthrough of the branch's block for [BNE], whatever it held on
    entry. *)
Theorem getCondBranchOperands_reject_writes_target (MF : MachineFunction)
    (Parent : BlockRef) (Inst : MachineInstr) (Reg Reg' : Register)
    (Imm Imm' : option int64_t) (T0 : option BlockRef)
    (Target' : option (option BlockRef)) :
  getOpcode Inst = BEQ \/ getOpcode Inst = BNE ->
  getCondBranchOperands X0 MF Parent Inst Reg Imm (Some T0)
    = Ok (false, Reg', Imm', Target') ->
  Reg' = Reg /\ Imm' = Imm
  /\ (getOpcode Inst = BEQ ->
      exists T, getOperand Inst 2 = Ok (MO_MachineBasicBlock T)
                /\ Target' = Some (Some T))
  /\ (getOpcode Inst = BNE -> Target' = Some (getFallThrough MF Parent)).
Proof.
  intros Hop. unfold getCondBranchOperands.
  destruct (decide (getOpcode Inst = BEQ \/ getOpcode Inst = BNE)) as [_|[]];
    [|done].
  destruct (getOperand Inst 0) as [LHS|]; simpl; [|discriminate].
  destruct (getOperand Inst 1) as [RHS|]; simpl; [|discriminate].
  destruct (decide (getOpcode Inst = BEQ)) as [Hbeq|Hbeq].
  - destruct (getOperand Inst 2) as [[| |T|]|]; simpl; try discriminate.
    intros H.
    assert (Reg' = Reg /\ Imm' = Imm /\ Target' = Some (Some T))
      as (-> & -> & ->).
    { destruct LHS, RHS; simpl in H;
        repeat (case_bool_decide; simpl in H); by inversion H. }
    split; [done|]. split; [done|]. split; [eauto | congruence].
  - intros H.
    assert (Reg' = Reg /\ Imm' = Imm
            /\ Target' = Some (getFallThrough MF Parent)) as (-> & -> & ->).
    { destruct LHS, RHS; simpl in H;
        repeat (case_bool_decide; simpl in H); by inversion H. }
    split; [done|]. split; [done|]. split; [congruence | done].
Qed.

(** *** Transform A *)

Lemma back_snoc (init : list MachineInstr) (Last : MachineInstr)
    (B : MachineBasicBlock) :
  Insts B = init ++ [Last] -> empty B = false /\ back B = Ok Last.
Proof.
  intros H. unfold empty, back. rewrite H, last_snoc.
  split; [by destruct init | done].
Qed.

(** C2. Let block [b] end in an unconditional branch [LastInst] whose
    operand 0 is the block [t].  If [t] holds exactly one instruction and
    it is a return, [eliminateJumpToExitBlock] reports a change and the
    function differs from the one before in block [b] only, where the
    branch has been replaced by a return instruction without operands that
    carries the debug location of the branch; block [t] is as before.  If
    [t] does not hold exactly one instruction, or its only instruction is
    not a return, the transform reports no change and the function is as
    before. *)
Theorem eliminateJumpToExitBlock_spec (MF : MachineFunction) (b t : BlockRef)
    (B T : MachineBasicBlock) (init : list MachineInstr)
    (LastInst : MachineInstr) :
  MF !! b = Some B ->
  Insts B = init ++ [LastInst] ->
  isUnconditionalBranch LastInst = true ->
  getOperand LastInst 0 = Ok (MO_MachineBasicBlock t) ->
  MF !! t = Some T ->
  let Ret := mkInstr PseudoRET_desc [] (getDebugLoc LastInst) in
  let B' := mkBlock (init ++ [Ret]) (Predecessors B) in
  ((exists R, Insts T = [R] /\ isReturn R = true) ->
     eliminateJumpToExitBlock MF b = Ok (true, <[b := B']> MF)
     /\ isReturn Ret = true
     /\ getDebugLoc Ret = getDebugLoc LastInst
     /\ <[b := B']> MF !! b = Some B'
     /\ <[b := B']> MF !! t = Some T)
  /\ ((size T <> 1 \/ exists R, Insts T = [R] /\ isReturn R = false) ->
     eliminateJumpToExitBlock MF b = Ok (false, MF)).
Proof.
  intros HB Hinsts Hbr Hop HT Ret B'.
  destruct (back_snoc init LastInst B Hinsts) as [Hne Hback].
  assert (Hlt : b < length MF) by (by eapply lookup_lt_Some).
  unfold eliminateJumpToExitBlock, block.
  rewrite HB; simpl. rewrite Hne, Hback; simpl. rewrite Hbr, Hop; simpl.
  rewrite HT; simpl. split.
  - intros (R & HR & Hret).
    assert (Hsz : size T = 1) by (unfold size; by rewrite HR).
    rewrite bool_decide_eq_true_2 by done.
    unfold front. rewrite HR; simpl. rewrite Hret.
    assert (Hbt : b <> t).
    { intros ->. assert (T = B) as -> by congruence.
      rewrite HR in Hinsts. destruct init as [|? [|]]; try discriminate.
      injection Hinsts as ->. unfold isReturn, isUnconditionalBranch in *.
      apply bool_decide_eq_true in Hret, Hbr. congruence. }
    split; [|split; [done|split; [done|split]]].
    + unfold BuildMI, eraseFromParent. rewrite HB.
      rewrite list_lookup_insert_eq by done. simpl.
      rewrite list_insert_insert_eq. do 3 f_equal.
      unfold B', size. rewrite Hinsts. f_equal.
      rewrite length_app; simpl. rewrite Nat.add_1_r; simpl.
      rewrite <- app_assoc; simpl. apply delete_middle.
    + by apply list_lookup_insert_eq.
    + by rewrite list_lookup_insert_ne.
  - intros [Hsz | (R & HR & Hret)].
    + by rewrite bool_decide_eq_false_2.
    + rewrite bool_decide_eq_true_2 by (unfold size; by rewrite HR).
      unfold front. rewrite HR; simpl. by rewrite Hret.
Qed.

(** *** Transform B *)

Lemma back_last (B : MachineBasicBlock) (Last : MachineInstr) :
  last (Insts B) = Some Last -> empty B = false /\ back B = Ok Last.
Proof.
  intros H. unfold empty, back. rewrite H. split; [|done].
  by destruct (Insts B).
Qed.

Lemma back_Ok (B : MachineBasicBlock) (Last : MachineInstr) :
  back B = Ok Last -> last (Insts B) = Some Last.
Proof. unfold back. destruct (last (Insts B)); by intros [= ->]. Qed.

Lemma empty_true (B : MachineBasicBlock) : empty B = true -> Insts B = [].
Proof. unfold empty. by destruct (Insts B). Qed.

Lemma block_Ok (MF : MachineFunction) (b : BlockRef) (B : MachineBasicBlock) :
  block MF b = Ok B <-> MF !! b = Some B.
Proof. unfold block. destruct (MF !! b); split; congruence. Qed.

Lemma getCondBranchOperands_no_target (MF : MachineFunction)
    (Parent : BlockRef) (Inst : MachineInstr) (Reg Reg' : Register)
    (Imm Imm' : option int64_t) (Res : bool)
    (Target' : option (option BlockRef)) :
  getCondBranchOperands X0 MF Parent Inst Reg Imm None
    = Ok (Res, Reg', Imm', Target') ->
  Target' = None /\ (Res = true -> exists i, Imm' = Some i).
Proof.
  unfold getCondBranchOperands.
  destruct (decide (getOpcode Inst = BEQ \/ getOpcode Inst = BNE)) as [Hop|Hop].
  - destruct (getOperand Inst 0) as [LHS|]; simpl; [|discriminate].
    destruct (getOperand Inst 1) as [RHS|]; simpl; [|discriminate].
    destruct LHS, RHS; simpl; repeat (case_bool_decide; simpl);
      intros [= <- <- <- <-]; split; eauto; discriminate.
  - destruct (decide (getOpcode Inst = C_BEQZ \/ getOpcode Inst = C_BNEZ))
      as [Hz|Hz].
    + destruct (getOperand Inst 0) as [[r| | |]|]; simpl; try discriminate.
      intros [= <- <- <- <-]; split; eauto.
    + intros [= <- <- <- <-]; split; [done | discriminate].
Qed.

Lemma getCondBranchOperands_not_NullBlock (MF : MachineFunction)
    (Parent : BlockRef) (Inst : MachineInstr) (Reg : Register)
    (Imm : option int64_t) (Target : option (option BlockRef)) :
  getCondBranchOperands X0 MF Parent Inst Reg Imm Target <> Fault NullBlock.
Proof.
  unfold getCondBranchOperands, getOperand.
  destruct (decide (getOpcode Inst = BEQ \/ getOpcode Inst = BNE)) as [Hop|Hop].
  - destruct (Operands Inst !! 0) as [LHS|]; simpl; [|discriminate].
    destruct (Operands Inst !! 1) as [RHS|]; simpl; [|discriminate].
    destruct Target as [T0|]; simpl.
    + destruct (decide (getOpcode Inst = BEQ)).
      * destruct (Operands Inst !! 2) as [[| |T|]|]; simpl; try discriminate.
        destruct LHS, RHS; simpl; repeat (case_bool_decide; simpl);
          discriminate.
      * destruct LHS, RHS; simpl; repeat (case_bool_decide; simpl);
          discriminate.
    + destruct LHS, RHS; simpl; repeat (case_bool_decide; simpl);
        discriminate.
  - destruct (decide (getOpcode Inst = C_BEQZ \/ getOpcode Inst = C_BNEZ))
      as [Hz|Hz]; [|discriminate].
    destruct (Operands Inst !! 0) as [[r| | |]|]; simpl; try discriminate.
    destruct Target as [T0|]; simpl; [|discriminate].
    destruct (decide (getOpcode Inst = C_BEQZ)); [|discriminate].
    destruct (Operands Inst !! 2) as [[| |T|]|]; simpl; discriminate.
Qed.

Lemma getLIOperands_not_NullBlock (Inst : MachineInstr) (Reg : Register)
    (Imm : option int64_t) :
  getLIOperands X0 Inst Reg Imm <> Fault NullBlock.
Proof.
  unfold getLIOperands, getOperand.
  destruct (decide (getOpcode Inst = C_LI)).
  { destruct (Operands Inst !! 0) as [[]|]; simpl; try discriminate.
    destruct (Operands Inst !! 1) as [[]|]; simpl; discriminate. }
  destruct (decide (getOpcode Inst = ADDI)).
  - destruct (Operands Inst !! 1) as [LHS|]; simpl; [|discriminate].
    destruct (Operands Inst !! 2) as [RHS|]; simpl; [|discriminate].
    destruct (Operands Inst !! 0) as [[r| | |]|]; simpl; try discriminate.
    destruct (isCopy Inst);
      destruct LHS, RHS; simpl; repeat (case_bool_decide; simpl);
      try discriminate.
  - simpl. destruct (isCopy Inst); [|discriminate].
    destruct (Operands Inst !! 1) as [Op1|]; simpl; [|discriminate].
    destruct (isRegX0 X0 Op1); [|discriminate].
    destruct (Operands Inst !! 0) as [[]|]; simpl; discriminate.
Qed.

Lemma predecessorsRemovable_passes (MF : MachineFunction) (Dst : Register)
    (Imm : int64_t) (Preds : list BlockRef) :
  Forall (predecessorPasses X0 MF Dst Imm) Preds ->
  predecessorsRemovable X0 MF Dst Imm Preds = Ok true.
Proof.
  induction 1 as [|p Preds (P & HP & Hp) _ IH]; [done|].
  simpl. apply block_Ok in HP. rewrite HP; simpl.
  destruct Hp as [Hnil | (PLast & Hlast & Hcb & Hrec)].
  - unfold empty. by rewrite Hnil.
  - destruct (back_last P PLast Hlast) as [-> ->]; simpl.
    rewrite Hcb, Hrec; simpl. by rewrite !bool_decide_eq_true_2.
Qed.

Lemma predecessorsRemovable_true (MF : MachineFunction) (Dst : Register)
    (Imm : int64_t) (Preds : list BlockRef) :
  predecessorsRemovable X0 MF Dst Imm Preds = Ok true ->
  Forall (predecessorPasses X0 MF Dst Imm) Preds.
Proof.
  induction Preds as [|p Preds IH]; [by constructor|].
  simpl. intros H.
  apply bind_Ok in H as (P & HP & H). apply block_Ok in HP.
  destruct (empty P) eqn:Hempty.
  { constructor; [|by apply IH]. exists P. split; [done|].
    left. by apply empty_true. }
  apply bind_Ok in H as (PLast & Hback & H). apply back_Ok in Hback.
  destruct (isConditionalBranch PLast) eqn:Hcb; simpl in H; [|discriminate].
  apply bind_Ok in H as ([[[Res PReg] PImm] T'] & Hrec & H).
  destruct Res; simpl in H; [|discriminate].
  destruct (getCondBranchOperands_no_target _ _ _ _ _ _ _ _ _ Hrec)
    as [-> [i ->]]; [done|].
  simpl in H. repeat case_bool_decide; simpl in H; try discriminate. subst.
  constructor; [|by apply IH]. exists P. split; [done|]. right. eauto.
Qed.

Lemma predecessorsRemovable_not_NullBlock (MF : MachineFunction)
    (Dst : Register) (Imm : int64_t) (Preds : list BlockRef) :
  predecessorsRemovable X0 MF Dst Imm Preds <> Fault NullBlock.
Proof.
  induction Preds as [|p Preds IH]; [discriminate|].
  simpl. unfold block, back.
  destruct (MF !! p) as [P|]; simpl; [|discriminate].
  destruct (empty P); [done|].
  destruct (last (Insts P)) as [PLast|]; simpl; [|discriminate].
  destruct (isConditionalBranch PLast); simpl; [|discriminate].
  pose proof (getCondBranchOperands_not_NullBlock MF p PLast NoRegister None None).
  destruct (getCondBranchOperands X0 MF p PLast NoRegister None None)
    as [[[[Res PReg] PImm] T']|f]; simpl; [|congruence].
  destruct Res; simpl; [|discriminate].
  destruct PImm; simpl; [|discriminate].
  repeat (case_bool_decide; simpl); done.
Qed.

Lemma delete_head {A : Type} (l : list A) : delete 0 l = tail l.
Proof. by destruct l. Qed.

(** The run of Transform B once its branch has been recognized with a
    target that is a block of the function. *)
Lemma eliminateAssignAfterBranchTest_recognized (MF : MachineFunction)
    (b t : BlockRef) (LastInst : MachineInstr) (Reg : Register)
    (Imm : option int64_t) (T : MachineBasicBlock) :
  endsInRecognizedBranch X0 MF b LastInst Reg Imm (Some t) ->
  MF !! t = Some T ->
  eliminateAssignAfterBranchTest X0 MF b =
    if bool_decide (size T = 0) then Ok (false, MF)
    else
      Head ← front T;
      '(IsLI, Dst, LiImm) ← getLIOperands X0 Head NoRegister None;
      if IsLI : bool then
        LiImm ← load LiImm;
        Imm ← load Imm;
        if bool_decide (Dst = Reg) && bool_decide (LiImm = Imm) then
          Removable ← predecessorsRemovable X0 MF Dst Imm (Predecessors T);
          if negb Removable then Ok (false, MF)
          else Ok (true, eraseFromParent MF t 0)
        else Ok (false, MF)
      else Ok (false, MF).
Proof.
  intros (B & HB & Hlast & Hcb & Hrec) HT.
  unfold eliminateAssignAfterBranchTest.
  apply block_Ok in HB, HT. rewrite HB; simpl.
  destruct (back_last B LastInst Hlast) as [-> ->]; simpl.
  rewrite Hcb, Hrec; simpl. by rewrite HT.
Qed.

(** The register and the constant that the recognizer returns do not
    depend on the target pointer. *)
Lemma getCondBranchOperands_drop_target (MF : MachineFunction)
    (Parent : BlockRef) (Inst : MachineInstr) (Reg R : Register)
    (Imm C : option int64_t) (T0 : option BlockRef)
    (Target' : option (option BlockRef)) (Res : bool) :
  getCondBranchOperands X0 MF Parent Inst Reg Imm (Some T0)
    = Ok (Res, R, C, Target') ->
  getCondBranchOperands X0 MF Parent Inst Reg Imm None = Ok (Res, R, C, None).
Proof.
  unfold getCondBranchOperands. intros H.
  destruct (decide (getOpcode Inst = BEQ \/ getOpcode Inst = BNE)) as [Hop|Hop].
  - apply bind_Ok in H as (LHS & -> & H). apply bind_Ok in H as (RHS & -> & H).
    apply bind_Ok in H as (Tgt & _ & H). simpl.
    destruct LHS, RHS; simpl in *; repeat (case_bool_decide; simpl in * );
      by inversion H.
  - destruct (decide (getOpcode Inst = C_BEQZ \/ getOpcode Inst = C_BNEZ))
      as [Hz|Hz]; [|by inversion H].
    apply bind_Ok in H as (r & -> & H). apply bind_Ok in H as (Tgt & _ & H).
    simpl. by inversion H.
Qed.

Lemma predecessorProves_passes (MF : MachineFunction) (Dst : Register)
    (Imm : int64_t) (t p : BlockRef) :
  predecessorProves X0 MF Dst Imm t p -> predecessorPasses X0 MF Dst Imm p.
Proof.
  intros [(P & HP & Hnil) | (P & PLast & HP & Hlast & Hcb & Hrec)].
  - exists P. split; [done | by left].
  - exists P. split; [done|]. right. exists PLast.
    split; [done|]. split; [done|].
    by apply getCondBranchOperands_drop_target in Hrec.
Qed.

Lemma predecessorPasses_not_fails (MF : MachineFunction) (Dst : Register)
    (Imm : int64_t) (p : BlockRef) :
  predecessorPasses X0 MF Dst Imm p -> ~ predecessorFails X0 MF Dst Imm p.
Proof.
  intros (P & HP & Hp) (P' & PLast' & HP' & Hlast' & Hf).
  assert (P' = P) as -> by congruence.
  destruct Hp as [Hnil | (PLast & Hlast & Hcb & Hrec)].
  { rewrite Hnil in Hlast'. discriminate. }
  assert (PLast' = PLast) as -> by congruence.
  destruct Hf as [Hf | (_ & Res & PReg & PImm & Tg & Hrec' & Hf)];
    [congruence|].
  rewrite Hrec in Hrec'. injection Hrec' as <- <- <- <-.
  destruct Hf as [? | [? | ?]]; congruence.
Qed.

(** C1, as amended.  Let block [b] end in a conditional branch that the
    recognizer accepts as a test of [(Reg, Imm)] whose "equal" outcome is
    the block [t].  If [t] starts with an instruction that [getLIOperands]
    recognizes as the assignment of [Imm] to [Reg], and every predecessor
    of [t] is empty or ends in a conditional branch that the recognizer
    accepts and whose "equal" outcome reaching [t] resolves to
    [(Reg, Imm)], then Transform B erases that first instruction and
    reports a change.  Whenever Transform B returns: if it reports a
    change, [t] did start with such an assignment and the function left is
    the given one without it; if it reports none, the function is as
    before; and it reports none as soon as one predecessor of [t] that is
    not empty fails the check by a non-branch terminator, an unrecognized
    branch form or a mismatched register or constant. *)
Theorem eliminateAssignAfterBranchTest_removes (MF : MachineFunction)
    (b t : BlockRef) (LastInst : MachineInstr) (Reg : Register)
    (Imm : int64_t) (T : MachineBasicBlock) :
  endsInRecognizedBranch X0 MF b LastInst Reg (Some Imm) (Some t) ->
  MF !! t = Some T ->
  let MF_erased := <[t := mkBlock (tail (Insts T)) (Predecessors T)]> MF in
  ((exists Head, head (Insts T) = Some Head
      /\ getLIOperands X0 Head NoRegister None = Ok (true, Reg, Some Imm))
   -> Forall (predecessorProves X0 MF Reg Imm t) (Predecessors T)
   -> eliminateAssignAfterBranchTest X0 MF b = Ok (true, MF_erased))
  /\ (forall (Changed : bool) (MF' : MachineFunction),
        eliminateAssignAfterBranchTest X0 MF b = Ok (Changed, MF') ->
        (Changed = true ->
           (exists Head, head (Insts T) = Some Head
              /\ getLIOperands X0 Head NoRegister None
                   = Ok (true, Reg, Some Imm))
           /\ MF' = MF_erased)
        /\ (Changed = false -> MF' = MF)
        /\ (Exists (predecessorFails X0 MF Reg Imm) (Predecessors T) ->
            Changed = false /\ MF' = MF)).
Proof.
  intros Hends HT MF_erased.
  rewrite (eliminateAssignAfterBranchTest_recognized _ _ _ _ _ _ _ Hends HT).
  assert (Herase : eraseFromParent MF t 0 = MF_erased).
  { unfold eraseFromParent. rewrite HT. by rewrite delete_head. }
  rewrite Herase. clear Herase Hends.
  split.
  { intros (Head & Hhead & Hli) Hpreds.
    unfold size, front. rewrite Hhead.
    destruct (Insts T); [discriminate|].
    rewrite bool_decide_eq_false_2 by done. simpl. rewrite Hli; simpl.
    rewrite !bool_decide_eq_true_2 by done. simpl.
    rewrite predecessorsRemovable_passes; [done|].
    eapply Forall_impl; [exact Hpreds|].
    intros p. apply predecessorProves_passes. }
  intros Changed MF' H.
  assert (Hinv : (Changed = false /\ MF' = MF)
     \/ (Changed = true /\ MF' = MF_erased
         /\ (exists Head, head (Insts T) = Some Head
               /\ getLIOperands X0 Head NoRegister None
                    = Ok (true, Reg, Some Imm))
         /\ Forall (predecessorPasses X0 MF Reg Imm) (Predecessors T))).
  { case_bool_decide; [injection H as <- <-; by left|].
    apply bind_Ok in H as (Head & Hfront & H).
    apply bind_Ok in H as ([[IsLI Dst] LiImm] & Hli & H).
    destruct IsLI; [|injection H as <- <-; by left].
    apply bind_Ok in H as (li & Hload & H). simpl in H.
    destruct (bool_decide (Dst = Reg) && bool_decide (li = Imm)) eqn:Heq;
      [|injection H as <- <-; by left].
    apply andb_true_iff in Heq as [HD HI].
    apply bool_decide_eq_true in HD, HI. subst Dst li.
    apply bind_Ok in H as (r & Hr & H).
    destruct r; simpl in H; [|injection H as <- <-; by left].
    injection H as <- <-. right. split; [done|]. split; [done|].
    destruct LiImm as [li'|]; [|discriminate]. injection Hload as ->.
    unfold front in Hfront.
    destruct (head (Insts T)) as [Head'|]; [|discriminate].
    injection Hfront as ->.
    split; [by exists Head | by apply predecessorsRemovable_true]. }
  destruct Hinv as [[-> ->] | (-> & -> & Hhead & Hpasses)].
  - split; [discriminate|]. split; done.
  - split; [done|]. split; [discriminate|].
    intros Hfails. exfalso.
    apply Exists_exists in Hfails as (p & Hin & Hfail).
    apply (predecessorPasses_not_fails MF Reg Imm p); [|done].
    by apply (proj1 (Forall_forall _ _) Hpasses).
Qed.

(** C6. When Transform B reports no change, the function it leaves is the
    function it was given: no instruction has been inserted or erased. *)
Theorem eliminateAssignAfterBranchTest_unchanged (MF MF' : MachineFunction)
    (b : BlockRef) :
  eliminateAssignAfterBranchTest X0 MF b = Ok (false, MF') -> MF' = MF.
Proof.
  unfold eliminateAssignAfterBranchTest. intros H.
  apply bind_Ok in H as (B & _ & H).
  destruct (empty B); [by injection H|].
  apply bind_Ok in H as (LastInst & _ & H).
  destruct (isConditionalBranch LastInst); [|by injection H].
  apply bind_Ok in H as ([[[Res Reg] Imm] Target] & _ & H).
  destruct Res; simpl in H; [|by injection H].
  apply bind_Ok in H as (t & _ & H).
  apply bind_Ok in H as (T & _ & H).
  destruct (bool_decide (size T = 0)); [by injection H|].
  apply bind_Ok in H as (Head & _ & H).
  apply bind_Ok in H as ([[IsLI Dst] LiImm] & _ & H).
  destruct IsLI; [|by injection H].
  apply bind_Ok in H as (li & _ & H).
  apply bind_Ok in H as (imm & _ & H).
  destruct (bool_decide (Dst = Reg) && bool_decide (li = imm));
    [|by injection H].
  apply bind_Ok in H as (r & _ & H).
  destruct r; simpl in H; [discriminate | by injection H].
Qed.

(** C8. Transform B dereferences a null target exactly when its block ends
    in a conditional branch [BNE] or [C_BNEZ] that the recognizer accepts
    and the block has no fallthrough successor.  Hence on a function where
    every block that ends in a recognized conditional branch has a
    fallthrough, Transform B never dereferences a null target. *)
Theorem eliminateAssignAfterBranchTest_null_target (MF : MachineFunction)
    (b : BlockRef) :
  (eliminateAssignAfterBranchTest X0 MF b = Fault NullBlock
   <-> exists (LastInst : MachineInstr) (Reg : Register) (Imm : option int64_t),
         endsInRecognizedBranch X0 MF b LastInst Reg Imm None
         /\ (getOpcode LastInst = BNE \/ getOpcode LastInst = C_BNEZ)
         /\ getFallThrough MF b = None)
  /\ ((forall (b' : BlockRef) (LastInst : MachineInstr) (Reg : Register)
              (Imm : option int64_t) (Target : option BlockRef),
         endsInRecognizedBranch X0 MF b' LastInst Reg Imm Target ->
         getFallThrough MF b' <> None) ->
      eliminateAssignAfterBranchTest X0 MF b <> Fault NullBlock).
Proof.
  assert (Hiff : eliminateAssignAfterBranchTest X0 MF b = Fault NullBlock
   <-> exists (LastInst : MachineInstr) (Reg : Register) (Imm : option int64_t),
         endsInRecognizedBranch X0 MF b LastInst Reg Imm None
         /\ (getOpcode LastInst = BNE \/ getOpcode LastInst = C_BNEZ)
         /\ getFallThrough MF b = None); [|split; [done|]].
  2: { intros Hall H. apply Hiff in H as (LastInst & Reg & Imm & Hends & _ & Hft).
       by apply (Hall _ _ _ _ _ Hends). }
  split.
  - unfold eliminateAssignAfterBranchTest. intros H.
    apply bind_Fault in H as [H | (B & HB & H)].
    { unfold block in H. destruct (MF !! b); discriminate. }
    apply block_Ok in HB.
    destruct (empty B); [discriminate|].
    apply bind_Fault in H as [H | (LastInst & Hback & H)].
    { unfold back in H. destruct (last (Insts B)); discriminate. }
    apply back_Ok in Hback.
    destruct (isConditionalBranch LastInst) eqn:Hcb; [|discriminate].
    apply bind_Fault in H as [H | ([[[Res Reg] Imm] Target] & Hrec & H)].
    { by apply getCondBranchOperands_not_NullBlock in H. }
    destruct Res; simpl in H; [|discriminate].
    apply bind_Fault in H as [H | (t & _ & H)].
    + destruct (getCondBranchOperands_accept_target _ _ _ _ _ _ _ _ _ Hrec)
        as [(T & ->) | (Hop' & ->)]; [discriminate|].
      simpl in H.
      destruct (getFallThrough MF b) eqn:Hft; [discriminate|].
      exists LastInst, Reg, Imm. split; [|done]. by exists B.
    + exfalso.
      apply bind_Fault in H as [H | (T & _ & H)].
      { unfold block in H. destruct (MF !! t); discriminate. }
      destruct (bool_decide (size T = 0)); [discriminate|].
      apply bind_Fault in H as [H | (Head & _ & H)].
      { unfold front in H. destruct (head (Insts T)); discriminate. }
      apply bind_Fault in H as [H | ([[IsLI Dst] LiImm] & _ & H)].
      { by apply getLIOperands_not_NullBlock in H. }
      destruct IsLI; [|discriminate].
      apply bind_Fault in H as [H | (li & _ & H)].
      { destruct LiImm; discriminate. }
      apply bind_Fault in H as [H | (imm & _ & H)].
      { destruct Imm; discriminate. }
      destruct (bool_decide (Dst = Reg) && bool_decide (li = imm));
        [|discriminate].
      apply bind_Fault in H as [H | (r & _ & H)].
      { by apply predecessorsRemovable_not_NullBlock in H. }
      destruct r; discriminate.
  - intros (LastInst & Reg & Imm & (B & HB & Hlast & Hcb & Hrec) & _ & _).
    unfold eliminateAssignAfterBranchTest.
    apply block_Ok in HB. rewrite HB; simpl.
    destruct (back_last B LastInst Hlast) as [-> ->]; simpl.
    by rewrite Hcb, Hrec.
Qed.

(** *** The driver *)

(** The flag that the loop of the driver returns after a last block [b] is
    the one of the two transforms on [b]: what it held before, from the
    blocks visited earlier, is overwritten. *)
Lemma visitBlocks_snoc (MBBs : list BlockRef) (b : BlockRef)
    (MF : MachineFunction) (Changed : bool) :
  visitBlocks X0 MF Changed (MBBs ++ [b]) =
    '(_, MF) ← visitBlocks X0 MF Changed MBBs;
    '(Changed, MF) ← eliminateJumpToExitBlock MF b;
    '(Changed', MF) ← eliminateAssignAfterBranchTest X0 MF b;
    mret (Changed || Changed', MF).
Proof.
  revert MF Changed. induction MBBs as [|a MBBs IH]; intros MF Changed; simpl.
  - destruct (eliminateJumpToExitBlock MF b) as [[c1 MF1]|]; simpl; [|done].
    by destruct (eliminateAssignAfterBranchTest X0 MF1 b) as [[c2 MF2]|].
  - destruct (eliminateJumpToExitBlock MF a) as [[c1 MF1]|]; simpl; [|done].
    destruct (eliminateAssignAfterBranchTest X0 MF1 a) as [[c2 MF2]|]; simpl;
      [|done].
    apply IH.
Qed.

(** *** Further properties of the recognizers *)

Lemma isRegX0_true (MO : MachineOperand) :
  isRegX0 X0 MO = true <-> MO = MO_Register X0.
Proof.
  destruct MO as [r| | |]; simpl; try (split; discriminate).
  rewrite bool_decide_eq_true. split; congruence.
Qed.

Lemma getOperand_Ok (Inst : MachineInstr) (i : nat) (MO : MachineOperand) :
  getOperand Inst i = Ok MO <-> Operands Inst !! i = Some MO.
Proof. unfold getOperand. destruct (Operands Inst !! i); split; congruence. Qed.

(** X1. [getLIOperands] reports a match only on the forms it is written
    for: a [C_LI] whose operands 0 and 1 are the register and the
    immediate returned; an [ADDI] whose operand 0 is the register returned
    and whose operands 1 and 2 are the zero register and the immediate
    returned, in either order; a [COPY] whose operand 0 is the register
    returned and whose operand 1 is the zero register, with constant 0. *)
Theorem getLIOperands_match_inv (Inst : MachineInstr) (Reg R : Register)
    (Imm C : option int64_t) :
  getLIOperands X0 Inst Reg Imm = Ok (true, R, C) ->
  (getOpcode Inst = C_LI
   /\ exists i, Operands Inst !! 0 = Some (MO_Register R)
                /\ Operands Inst !! 1 = Some (MO_Immediate i) /\ C = Some i)
  \/ (getOpcode Inst = ADDI
      /\ Operands Inst !! 0 = Some (MO_Register R)
      /\ exists i, C = Some i
           /\ ((Operands Inst !! 1 = Some (MO_Register X0)
                /\ Operands Inst !! 2 = Some (MO_Immediate i))
               \/ (Operands Inst !! 1 = Some (MO_Immediate i)
                   /\ Operands Inst !! 2 = Some (MO_Register X0))))
  \/ (getOpcode Inst = COPY
      /\ Operands Inst !! 0 = Some (MO_Register R)
      /\ Operands Inst !! 1 = Some (MO_Register X0)
      /\ C = Some 0%Z).
Proof.
  unfold getLIOperands. intros H.
  destruct (decide (getOpcode Inst = C_LI)) as [Hli|Hli].
  { left. split; [done|].
    apply bind_Ok in H as (r & Hr & H). apply bind_Ok in Hr as (O0 & HO0 & Hr).
    apply bind_Ok in H as (i & Hi & H). apply bind_Ok in Hi as (O1 & HO1 & Hi).
    apply getOperand_Ok in HO0, HO1.
    destruct O0; try discriminate. destruct O1; try discriminate.
    injection Hr as ->. injection Hi as ->. injection H as <- <-.
    by exists i. }
  right.
  destruct (decide (getOpcode Inst = ADDI)) as [Haddi|Haddi].
  - left. split; [done|].
    apply bind_Ok in H as (res & Hres & H).
    apply bind_Ok in Hres as (LHS & HO1 & Hres).
    apply bind_Ok in Hres as (RHS & HO2 & Hres).
    apply bind_Ok in Hres as (r & Hr & Hres).
    apply bind_Ok in Hr as (O0 & HO0 & Hr).
    apply getOperand_Ok in HO0, HO1, HO2.
    destruct O0; try discriminate. injection Hr as ->.
    destruct (isRegX0 X0 LHS && isImm RHS) eqn:E1.
    { apply andb_true_iff in E1 as [EL ER]. apply isRegX0_true in EL as ->.
      destruct RHS; try discriminate. simpl in Hres. injection Hres as <-.
      injection H as <- <-. split; [done|]. eexists. split; [done|]. by left. }
    destruct (isImm LHS && isRegX0 X0 RHS) eqn:E2.
    { apply andb_true_iff in E2 as [EL ER]. apply isRegX0_true in ER as ->.
      destruct LHS; try discriminate. simpl in Hres. injection Hres as <-.
      injection H as <- <-. split; [done|]. eexists. split; [done|]. by right. }
    injection Hres as <-.
    rewrite isCopy_false in H by (rewrite Haddi; discriminate). discriminate.
  - right. simpl in H. unfold isCopy in H. case_bool_decide; [|discriminate].
    split; [done|].
    apply bind_Ok in H as (Op1 & HO1 & H). apply getOperand_Ok in HO1.
    destruct (isRegX0 X0 Op1) eqn:E; [|discriminate].
    apply isRegX0_true in E as ->.
    apply bind_Ok in H as (r & Hr & H). apply bind_Ok in Hr as (O0 & HO0 & Hr).
    apply getOperand_Ok in HO0. destruct O0; try discriminate.
    injection Hr as ->. by injection H as <- <-.
Qed.

(** X2. The operand shapes on which [getLIOperands] returns at all, the
    accessors it calls asserting what they read: for [C_LI], operand 0 is
    a register and operand 1 an immediate; for [ADDI], operands 1 and 2
    exist and operand 0 is a register, also when the sources do not match;
    for [COPY], operand 1 exists, and operand 0 is a register if operand 1
    is the zero register; every other instruction is fine. *)
Theorem getLIOperands_defined_iff (Inst : MachineInstr) (Reg : Register)
    (Imm : option int64_t) :
  is_Ok (getLIOperands X0 Inst Reg Imm) <->
  match getOpcode Inst with
  | C_LI =>
      (exists r, Operands Inst !! 0 = Some (MO_Register r))
      /\ (exists i, Operands Inst !! 1 = Some (MO_Immediate i))
  | ADDI =>
      is_Some (Operands Inst !! 1) /\ is_Some (Operands Inst !! 2)
      /\ (exists r, Operands Inst !! 0 = Some (MO_Register r))
  | COPY =>
      exists Op1, Operands Inst !! 1 = Some Op1
        /\ (Op1 = MO_Register X0 ->
            exists r, Operands Inst !! 0 = Some (MO_Register r))
  | _ => True
  end.
Proof.
  unfold is_Ok, getLIOperands, getOperand.
  destruct (decide (getOpcode Inst = C_LI)) as [Hli|Hli].
  { rewrite Hli. split.
    - intros [v Hv].
      destruct (Operands Inst !! 0) as [[]|]; try discriminate.
      destruct (Operands Inst !! 1) as [[]|]; try discriminate. eauto.
    - intros ([r ->] & [i ->]). simpl. eauto. }
  destruct (decide (getOpcode Inst = ADDI)) as [Haddi|Haddi].
  { rewrite isCopy_false by (rewrite Haddi; discriminate).
    rewrite Haddi. split.
    - intros [v Hv].
      destruct (Operands Inst !! 1) as [LHS|]; [|discriminate].
      destruct (Operands Inst !! 2) as [RHS|]; [|discriminate].
      destruct (Operands Inst !! 0) as [[]|]; try discriminate. eauto.
    - intros ([LHS ->] & [RHS ->] & [r ->]). simpl.
      destruct LHS, RHS; simpl; repeat (case_bool_decide; simpl); eauto. }
  simpl. unfold isCopy.
  destruct (decide (getOpcode Inst = COPY)) as [Hcopy|Hcopy].
  - rewrite bool_decide_eq_true_2 by done. rewrite Hcopy. split.
    + intros [v Hv]. destruct (Operands Inst !! 1) as [Op1|]; [|discriminate].
      exists Op1. split; [done|]. intros ->. simpl in Hv.
      rewrite bool_decide_eq_true_2 in Hv by done.
      destruct (Operands Inst !! 0) as [[]|]; try discriminate. eauto.
    + intros (Op1 & -> & H). simpl.
      destruct (isRegX0 X0 Op1) eqn:E; [|eauto].
      apply isRegX0_true in E. destruct (H E) as [r ->]. simpl. eauto.
  - rewrite bool_decide_eq_false_2 by done.
    destruct (getOpcode Inst); try congruence; split; eauto.
Qed.

(** X3. For [BEQ] and [BNE], the order of the two compared operands does
    not matter: a register [r] compared with an immediate or with the zero
    register gives the same result whichever comes first; without a target
    pointer that result is the acceptance of [(r, v)], [v] the immediate,
    or 0 for the zero register. *)
Theorem getCondBranchOperands_operand_order (MF : MachineFunction)
    (Parent : BlockRef) (Opc : Opcode) (cls : InstrClass) (DL : DebugLoc)
    (r : Register) (c : MachineOperand) (rest : list MachineOperand)
    (Reg : Register) (Imm : option int64_t)
    (Target : option (option BlockRef)) :
  Opc = BEQ \/ Opc = BNE ->
  isImm c = true \/ c = MO_Register X0 ->
  getCondBranchOperands X0 MF Parent
    (mkInstr (mkDesc Opc cls) (MO_Register r :: c :: rest) DL) Reg Imm Target
  = getCondBranchOperands X0 MF Parent
      (mkInstr (mkDesc Opc cls) (c :: MO_Register r :: rest) DL) Reg Imm Target
  /\ getCondBranchOperands X0 MF Parent
       (mkInstr (mkDesc Opc cls) (c :: MO_Register r :: rest) DL) Reg Imm None
     = Ok (true, r, Some (match c with MO_Immediate i => i | _ => 0%Z end),
           None).
Proof.
  intros Hop Hc. unfold getCondBranchOperands, getOperand, getOpcode; simpl.
  destruct (decide (Opc = BEQ \/ Opc = BNE)) as [_|[]]; [|done].
  destruct Hc as [Hc | ->].
  - destruct c as [|i| |]; try discriminate. simpl.
    split; [|done].
    destruct Target as [T0|]; simpl; [|done].
    destruct (decide (Opc = BEQ)); simpl; [|done].
    by destruct (rest !! 0) as [[]|].
  - simpl. rewrite (bool_decide_eq_true_2 (X0 = X0)) by done. simpl.
    destruct (decide (r = X0)) as [->|Hr].
    + rewrite (bool_decide_eq_true_2 (X0 = X0)) by done. simpl.
      split; [|done].
      destruct Target as [T0|]; simpl; [|done].
      destruct (decide (Opc = BEQ)); simpl; [|done].
      by destruct (rest !! 0) as [[]|].
    + rewrite (bool_decide_eq_false_2 (r = X0)) by done. simpl.
      split; [|done].
      destruct Target as [T0|]; simpl; [|done].
      destruct (decide (Opc = BEQ)); simpl; [|done].
      by destruct (rest !! 0) as [[]|].
Qed.

(** X4. Called without a target pointer, as the loop of Transform B calls
    it, [getCondBranchOperands] does not tell an equality branch from the
    inequality branch on the same operands: [BEQ] and [BNE], and likewise
    [C_BEQZ] and [C_BNEZ], give the same result, whatever the function and
    the block the branch is in. *)
Theorem getCondBranchOperands_no_target_polarity (MF1 MF2 : MachineFunction)
    (Parent1 Parent2 : BlockRef) (Inst1 Inst2 : MachineInstr)
    (Reg : Register) (Imm : option int64_t) :
  Operands Inst1 = Operands Inst2 ->
  ((getOpcode Inst1 = BEQ \/ getOpcode Inst1 = BNE)
   /\ (getOpcode Inst2 = BEQ \/ getOpcode Inst2 = BNE))
  \/ ((getOpcode Inst1 = C_BEQZ \/ getOpcode Inst1 = C_BNEZ)
      /\ (getOpcode Inst2 = C_BEQZ \/ getOpcode Inst2 = C_BNEZ)) ->
  getCondBranchOperands X0 MF1 Parent1 Inst1 Reg Imm None
  = getCondBranchOperands X0 MF2 Parent2 Inst2 Reg Imm None.
Proof.
  intros Hops Hopc. unfold getCondBranchOperands, getOperand. rewrite Hops.
  destruct Hopc as [[H1 H2] | [H1 H2]].
  - destruct (decide (getOpcode Inst1 = BEQ \/ getOpcode Inst1 = BNE))
      as [_|[]]; [|done].
    destruct (decide (getOpcode Inst2 = BEQ \/ getOpcode Inst2 = BNE))
      as [_|[]]; [|done].
    done.
  - destruct (decide (getOpcode Inst1 = BEQ \/ getOpcode Inst1 = BNE))
      as [[?|?]|_]; [destruct H1; congruence..|].
    destruct (decide (getOpcode Inst2 = BEQ \/ getOpcode Inst2 = BNE))
      as [[?|?]|_]; [destruct H2; congruence..|].
    destruct (decide (getOpcode Inst1 = C_BEQZ \/ getOpcode Inst1 = C_BNEZ))
      as [_|[]]; [|done].
    destruct (decide (getOpcode Inst2 = C_BEQZ \/ getOpcode Inst2 = C_BNEZ))
      as [_|[]]; [|done].
    done.
Qed.

(** X5. [getCondBranchOperands] accepts only a test of a register against
    a constant: for [BEQ] and [BNE], one of operands 0 and 1 is the
    register returned and the other is the immediate returned, or the zero
    register with constant 0; for [C_BEQZ] and [C_BNEZ], operand 0 is the
    register returned and the constant is 0.  It never accepts a
    comparison of two immediates, of two registers neither of which is the
    zero register, or an instruction of another opcode. *)
Theorem getCondBranchOperands_accept_inv (MF : MachineFunction)
    (Parent : BlockRef) (Inst : MachineInstr) (Reg R : Register)
    (Imm C : option int64_t) (Target Target' : option (option BlockRef)) :
  getCondBranchOperands X0 MF Parent Inst Reg Imm Target
    = Ok (true, R, C, Target') ->
  ((getOpcode Inst = BEQ \/ getOpcode Inst = BNE)
   /\ exists v, C = Some v
        /\ ((Operands Inst !! 0 = Some (MO_Register R)
             /\ (Operands Inst !! 1 = Some (MO_Immediate v)
                 \/ (Operands Inst !! 1 = Some (MO_Register X0) /\ v = 0%Z)))
            \/ (Operands Inst !! 1 = Some (MO_Register R)
                /\ (Operands Inst !! 0 = Some (MO_Immediate v)
                    \/ (Operands Inst !! 0 = Some (MO_Register X0)
                        /\ v = 0%Z)))))
  \/ ((getOpcode Inst = C_BEQZ \/ getOpcode Inst = C_BNEZ)
      /\ Operands Inst !! 0 = Some (MO_Register R) /\ C = Some 0%Z).
Proof.
  unfold getCondBranchOperands. intros H.
  destruct (decide (getOpcode Inst = BEQ \/ getOpcode Inst = BNE)) as [Hop|Hop].
  - left. split; [done|].
    apply bind_Ok in H as (LHS & HL & H). apply bind_Ok in H as (RHS & HR & H).
    apply bind_Ok in H as (Tgt & _ & H).
    apply getOperand_Ok in HL, HR. rewrite HL, HR.
    destruct (isReg LHS && (isImm RHS || isRegX0 X0 RHS)) eqn:E1.
    { apply andb_true_iff in E1 as [EL ER].
      destruct LHS as [a| | |]; try discriminate. simpl in H.
      destruct (isRegX0 X0 RHS) eqn:EX.
      - apply isRegX0_true in EX as ->. simpl in H. injection H as <- <- <-.
        exists 0%Z. split; [done|]. left. split; [done|]. by right.
      - rewrite orb_false_r in ER. destruct RHS as [|i| |]; try discriminate.
        simpl in H. injection H as <- <- <-.
        exists i. split; [done|]. left. split; [done|]. by left. }
    destruct ((isImm LHS || isRegX0 X0 LHS) && isReg RHS) eqn:E2;
      [|discriminate].
    apply andb_true_iff in E2 as [EL ER].
    destruct RHS as [b| | |]; try discriminate.
    destruct (isRegX0 X0 LHS) eqn:EX.
    + apply isRegX0_true in EX as ->. simpl in H. injection H as <- <- <-.
      exists 0%Z. split; [done|]. right. split; [done|]. by right.
    + rewrite orb_false_r in EL. destruct LHS as [|i| |]; try discriminate.
      simpl in H. injection H as <- <- <-.
      exists i. split; [done|]. right. split; [done|]. by left.
  - right.
    destruct (decide (getOpcode Inst = C_BEQZ \/ getOpcode Inst = C_BNEZ))
      as [Hz|Hz]; [|discriminate].
    split; [done|].
    apply bind_Ok in H as (r & Hr & H). apply bind_Ok in Hr as (O0 & HO & Hr).
    apply getOperand_Ok in HO. destruct O0; try discriminate.
    injection Hr as ->.
    apply bind_Ok in H as (Tgt & _ & H). by injection H as <- <- <-.
Qed.

(** *** Further properties of Transform A *)

Lemma BuildMI_eraseFromParent_back (MF : MachineFunction) (b : BlockRef)
    (B : MachineBasicBlock) (init : list MachineInstr) (L : MachineInstr)
    (DL : DebugLoc) (D : MCInstrDesc) :
  MF !! b = Some B ->
  Insts B = init ++ [L] ->
  eraseFromParent (BuildMI MF b DL D) b (pred (size B))
  = <[b := mkBlock (init ++ [mkInstr D [] DL]) (Predecessors B)]> MF.
Proof.
  intros HB Hinsts.
  assert (Hlt : b < length MF) by (by eapply lookup_lt_Some).
  unfold BuildMI, eraseFromParent. rewrite HB.
  rewrite list_lookup_insert_eq by done. simpl.
  rewrite list_insert_insert_eq. do 2 f_equal.
  unfold size. rewrite Hinsts, length_app; simpl.
  rewrite Nat.add_1_r; simpl. rewrite <- app_assoc; simpl.
  apply delete_middle.
Qed.

Lemma eliminateJumpToExitBlock_inv (MF MF' : MachineFunction) (b : BlockRef)
    (Changed : bool) :
  eliminateJumpToExitBlock MF b = Ok (Changed, MF') ->
  (Changed = false /\ MF' = MF)
  \/ (Changed = true
      /\ exists B init LastInst t T R,
           MF !! b = Some B
           /\ Insts B = init ++ [LastInst]
           /\ isUnconditionalBranch LastInst = true
           /\ Operands LastInst !! 0 = Some (MO_MachineBasicBlock t)
           /\ MF !! t = Some T
           /\ Insts T = [R]
           /\ isReturn R = true
           /\ MF' = <[b := mkBlock
                        (init ++ [mkInstr PseudoRET_desc [] (getDebugLoc LastInst)])
                        (Predecessors B)]> MF).
Proof.
  unfold eliminateJumpToExitBlock. intros H.
  apply bind_Ok in H as (B & HB & H). apply block_Ok in HB.
  destruct (empty B); [injection H as <- <-; by left|].
  apply bind_Ok in H as (L & Hback & H). apply back_Ok in Hback.
  apply last_Some in Hback as [init Hinsts].
  destruct (isUnconditionalBranch L) eqn:Hbr; [|injection H as <- <-; by left].
  apply bind_Ok in H as (t & Ht & H). apply bind_Ok in Ht as (O0 & HO & Ht).
  apply getOperand_Ok in HO. destruct O0; try discriminate. injection Ht as ->.
  apply bind_Ok in H as (T & HT & H). apply block_Ok in HT.
  apply bind_Ok in H as (IsRet & Hret & H).
  destruct IsRet; [|injection H as <- <-; by left].
  injection H as <- <-. right. split; [done|].
  case_bool_decide as Hsz; [|discriminate].
  apply bind_Ok in Hret as (R & Hfront & Hret). injection Hret as Hret.
  unfold front in Hfront. unfold size in Hsz.
  destruct (Insts T) as [|R' [|]] eqn:HTi; try discriminate.
  injection Hfront as ->.
  exists B, init, L, t, T, R. repeat (split; [done|]).
  by apply BuildMI_eraseFromParent_back with (L := L).
Qed.

(** X6. Transform A reports a change only in the situation it is written
    for: the block ends in an unconditional branch whose operand 0 is a
    block holding exactly one instruction, a return; the function it
    leaves is the given one with that branch replaced by a return without
    operands carrying the debug location of the branch. *)
Theorem eliminateJumpToExitBlock_changed_inv (MF MF' : MachineFunction)
    (b : BlockRef) :
  eliminateJumpToExitBlock MF b = Ok (true, MF') ->
  exists B init LastInst t T R,
    MF !! b = Some B
    /\ Insts B = init ++ [LastInst]
    /\ isUnconditionalBranch LastInst = true
    /\ Operands LastInst !! 0 = Some (MO_MachineBasicBlock t)
    /\ MF !! t = Some T
    /\ Insts T = [R]
    /\ isReturn R = true
    /\ MF' = <[b := mkBlock
                 (init ++ [mkInstr PseudoRET_desc [] (getDebugLoc LastInst)])
                 (Predecessors B)]> MF.
Proof.
  intros H. apply eliminateJumpToExitBlock_inv in H as [[? _] | [_ H]];
    [discriminate | exact H].
Qed.

Lemma snoc_inj {A : Type} (l1 l2 : list A) (x y : A) :
  l1 ++ [x] = l2 ++ [y] -> l1 = l2 /\ x = y.
Proof. intros H. by apply app_inj_tail in H. Qed.

Lemma eliminateJumpToExitBlock_changed_neq (MF MF' : MachineFunction)
    (b : BlockRef) :
  eliminateJumpToExitBlock MF b = Ok (true, MF') -> MF' <> MF.
Proof.
  intros H.
  apply eliminateJumpToExitBlock_inv in H as [[? _] | [_ H]]; [discriminate|].
  destruct H as (B & init & L & t & T & R & HB & Hinsts & Hbr & _ & _ & _ & _ & ->).
  intros Heq.
  assert (Hlt : b < length MF) by (by eapply lookup_lt_Some).
  assert (Hb : MF !! b
            = Some (mkBlock (init ++ [mkInstr PseudoRET_desc [] (getDebugLoc L)])
                      (Predecessors B))).
  { rewrite <- Heq at 1. by apply list_lookup_insert_eq. }
  rewrite HB in Hb. injection Hb as Hb.
  rewrite Hb in Hinsts. simpl in Hinsts.
  apply snoc_inj in Hinsts as [_ HL]. rewrite <- HL in Hbr. discriminate.
Qed.

(** X7. The flag of Transform A is exact and its edit is local: it
    reports a change exactly when the function it leaves differs from the
    given one; every block other than the visited one is as before; and
    every block keeps its predecessor list and its number of instructions,
    so that the visited block is still listed as a predecessor of the
    return block it no longer jumps to. *)
Theorem eliminateJumpToExitBlock_frame (MF MF' : MachineFunction)
    (b : BlockRef) (Changed : bool) :
  eliminateJumpToExitBlock MF b = Ok (Changed, MF') ->
  (Changed = true <-> MF' <> MF)
  /\ (forall i, i <> b -> MF' !! i = MF !! i)
  /\ Forall2 (fun B B' => Predecessors B' = Predecessors B
                          /\ size B' = size B) MF MF'.
Proof.
  intros H. split.
  { destruct Changed.
    - split; [intros _; by eapply eliminateJumpToExitBlock_changed_neq | done].
    - apply eliminateJumpToExitBlock_inv in H as [[_ ->] | [? _]];
        [|discriminate].
      split; [discriminate | intros []; done]. }
  apply eliminateJumpToExitBlock_inv in H as [[_ ->] | [_ H]].
  { split; [done|]. apply Forall_Forall2_diag, Forall_forall. by intros. }
  destruct H as (B & init & L & t & T & R & HB & Hinsts & _ & _ & _ & _ & _ & ->).
  split; [intros i Hi; by rewrite list_lookup_insert_ne|].
  rewrite <- (list_insert_id MF b B HB) at 1.
  apply Forall2_insert.
  - apply Forall_Forall2_diag, Forall_forall. by intros.
  - split; [done|]. unfold size; simpl.
    rewrite Hinsts, !length_app. done.
Qed.

(** X8. Transform A is idempotent on a block: once it has run on [b],
    running it again on [b] reports no change and leaves the function as
    it is. *)
Theorem eliminateJumpToExitBlock_idempotent (MF MF' : MachineFunction)
    (b : BlockRef) (Changed : bool) :
  eliminateJumpToExitBlock MF b = Ok (Changed, MF') ->
  eliminateJumpToExitBlock MF' b = Ok (false, MF').
Proof.
  intros H.
  pose proof H as Hinv.
  apply eliminateJumpToExitBlock_inv in Hinv as [[-> ->] | [_ Hinv]]; [done|].
  destruct Hinv as (B & init & L & t & T & R & HB & _ & _ & _ & _ & _ & _ & ->).
  assert (Hlt : b < length MF) by (by eapply lookup_lt_Some).
  unfold eliminateJumpToExitBlock, block.
  rewrite list_lookup_insert_eq by done. simpl.
  unfold empty, back; simpl. rewrite last_snoc.
  by destruct init.
Qed.

(** X9. The accesses of Transform A are defined exactly when the visited
    block is empty, or does not end in an unconditional branch, or ends in
    one whose operand 0 exists and is a block of the function; an
    unconditional branch without a block at operand 0 trips the accessor. *)
Theorem eliminateJumpToExitBlock_defined_iff (MF : MachineFunction)
    (b : BlockRef) (B : MachineBasicBlock) :
  MF !! b = Some B ->
  (is_Ok (eliminateJumpToExitBlock MF b)
   <-> Insts B = []
       \/ exists LastInst,
            last (Insts B) = Some LastInst
            /\ (isUnconditionalBranch LastInst = false
                \/ exists t, Operands LastInst !! 0
                               = Some (MO_MachineBasicBlock t)
                             /\ is_Some (MF !! t))).
Proof.
  intros HB. unfold is_Ok, eliminateJumpToExitBlock, block. rewrite HB; simpl.
  unfold empty, back.
  destruct (Insts B) as [|I0 Is] eqn:Hinsts.
  { split; [by left | eauto]. }
  rewrite <- Hinsts.
  assert (exists L, last (Insts B) = Some L) as [L HL].
  { destruct (last (Insts B)) eqn:E; [eauto|].
    apply last_None in E. congruence. }
  rewrite HL; simpl. rewrite Hinsts at 1.
  destruct (isUnconditionalBranch L) eqn:Hbr.
  - unfold getOperand. split.
    + intros [v Hv]. right. exists L. split; [done|]. right.
      destruct (Operands L !! 0) as [[| |t|]|]; try discriminate.
      exists t. split; [done|]. simpl in Hv.
      destruct (MF !! t); [eauto | discriminate].
    + intros [? | (L' & HL' & [Hf | (t & Ht & [T HT])])]; [congruence| |].
      * congruence.
      * assert (L' = L) as -> by congruence.
        rewrite Ht; simpl. rewrite HT; simpl.
        unfold front. case_bool_decide as Hsz; simpl.
        -- unfold size in Hsz. destruct (Insts T) as [|R [|]]; try discriminate.
           simpl. destruct (isReturn R); eauto.
        -- eauto.
  - split; [|eauto]. intros _. right. exists L. split; [done | by left].
Qed.

(** *** Measures under the edits *)

Lemma sum_list_with_insert {A : Type} (f : A -> nat) (l : list A) (i : nat)
    (x y : A) :
  l !! i = Some x ->
  sum_list_with f (<[i := y]> l) + f x = sum_list_with f l + f y.
Proof.
  revert i. induction l as [|a l IH]; intros [|i] H; try discriminate; simpl in *.
  - injection H as ->. lia.
  - specialize (IH i H). lia.
Qed.

Lemma shrinksTo_refl (MF : MachineFunction) : shrinksTo MF MF.
Proof. apply Forall_Forall2_diag, Forall_forall. by intros. Qed.

Lemma shrinksTo_trans (MF1 MF2 MF3 : MachineFunction) :
  shrinksTo MF1 MF2 -> shrinksTo MF2 MF3 -> shrinksTo MF1 MF3.
Proof.
  unfold shrinksTo. intros H12 H23.
  eapply Forall2_trans; [|exact H12|exact H23].
  intros B1 B2 B3 [HP1 HS1] [HP2 HS2]. split; [congruence | lia].
Qed.

Lemma shrinksTo_insert (MF : MachineFunction) (b : BlockRef)
    (B B' : MachineBasicBlock) :
  MF !! b = Some B ->
  Predecessors B' = Predecessors B ->
  size B' <= size B ->
  shrinksTo MF (<[b := B']> MF).
Proof.
  intros HB HP HS. unfold shrinksTo.
  rewrite <- (list_insert_id MF b B HB) at 1.
  apply Forall2_insert; [apply shrinksTo_refl | done].
Qed.

Lemma shrinksTo_numInsts (MF MF' : MachineFunction) :
  shrinksTo MF MF' -> numInsts MF' <= numInsts MF.
Proof.
  unfold numInsts. induction 1 as [|B B' MF MF' [_ HS] _ IH]; simpl; [done|].
  lia.
Qed.

(** *** Further properties of Transform B *)

Lemma eliminateAssignAfterBranchTest_inv (MF MF' : MachineFunction)
    (b : BlockRef) (Changed : bool) :
  eliminateAssignAfterBranchTest X0 MF b = Ok (Changed, MF') ->
  (Changed = false /\ MF' = MF)
  \/ (Changed = true
      /\ exists LastInst Reg Imm t T Head tl,
           endsInRecognizedBranch X0 MF b LastInst Reg (Some Imm) (Some t)
           /\ MF !! t = Some T
           /\ Insts T = Head :: tl
           /\ getLIOperands X0 Head NoRegister None = Ok (true, Reg, Some Imm)
           /\ Forall (predecessorPasses X0 MF Reg Imm) (Predecessors T)
           /\ MF' = <[t := mkBlock tl (Predecessors T)]> MF).
Proof.
  unfold eliminateAssignAfterBranchTest. intros H.
  apply bind_Ok in H as (B & HB & H). apply block_Ok in HB.
  destruct (empty B); [injection H as <- <-; by left|].
  apply bind_Ok in H as (LastInst & Hback & H). apply back_Ok in Hback.
  destruct (isConditionalBranch LastInst) eqn:Hcb;
    [|injection H as <- <-; by left].
  apply bind_Ok in H as ([[[Res Reg] Imm] Target] & Hrec & H).
  destruct Res; simpl in H; [|injection H as <- <-; by left].
  apply bind_Ok in H as (t & Ht & H).
  apply bind_Ok in H as (T & HT & H). apply block_Ok in HT.
  destruct (bool_decide (size T = 0)); [injection H as <- <-; by left|].
  apply bind_Ok in H as (Head & Hfront & H).
  apply bind_Ok in H as ([[IsLI Dst] LiImm] & Hli & H).
  destruct IsLI; [|injection H as <- <-; by left].
  apply bind_Ok in H as (li & Hload & H).
  apply bind_Ok in H as (imm & Hload' & H).
  destruct (bool_decide (Dst = Reg) && bool_decide (li = imm)) eqn:Heq;
    [|injection H as <- <-; by left].
  apply bind_Ok in H as (r & Hr & H).
  destruct r; simpl in H; [|injection H as <- <-; by left].
  injection H as <- <-. right. split; [done|].
  apply andb_true_iff in Heq as [HD HI].
  apply bool_decide_eq_true in HD, HI. subst Dst li.
  destruct LiImm as [li|]; [|discriminate]. injection Hload as ->.
  destruct Imm as [imm'|]; [|discriminate]. injection Hload' as ->.
  destruct (getCondBranchOperands_accept_target _ _ _ _ _ _ _ _ _ Hrec)
    as [(t' & ->) | (_ & ->)]; simpl in Ht.
  2: { destruct (getFallThrough MF b) as [t'|] eqn:Hft; [|discriminate].
       injection Ht as ->. unfold front in Hfront.
       destruct (Insts T) as [|Head' tl] eqn:HTi; [discriminate|].
       injection Hfront as ->.
       exists LastInst, Reg, imm, t, T, Head, tl.
       split; [by exists B|]. split; [done|]. split; [done|].
       split; [done|]. split; [by apply predecessorsRemovable_true|].
       unfold eraseFromParent. by rewrite HT, HTi. }
  injection Ht as ->. unfold front in Hfront.
  destruct (Insts T) as [|Head' tl] eqn:HTi; [discriminate|].
  injection Hfront as ->.
  exists LastInst, Reg, imm, t, T, Head, tl.
  split; [by exists B|]. split; [done|]. split; [done|].
  split; [done|]. split; [by apply predecessorsRemovable_true|].
  unfold eraseFromParent. by rewrite HT, HTi.
Qed.

(** X10. Transform B reports a change only in the situation it is written
    for: the visited block ends in a conditional branch that the
    recognizer accepts, and the one instruction erased is the first
    instruction of the branch's resolved block, a [C_LI], an [ADDI] or a
    [COPY] that assigns the tested constant to the tested register.  The
    function it leaves is the given one without that instruction. *)
Theorem eliminateAssignAfterBranchTest_changed_inv (MF MF' : MachineFunction)
    (b : BlockRef) :
  eliminateAssignAfterBranchTest X0 MF b = Ok (true, MF') ->
  exists LastInst Reg Imm t T Head tl,
    endsInRecognizedBranch X0 MF b LastInst Reg (Some Imm) (Some t)
    /\ MF !! t = Some T
    /\ Insts T = Head :: tl
    /\ getLIOperands X0 Head NoRegister None = Ok (true, Reg, Some Imm)
    /\ (getOpcode Head = C_LI \/ getOpcode Head = ADDI
        \/ getOpcode Head = COPY)
    /\ MF' = <[t := mkBlock tl (Predecessors T)]> MF.
Proof.
  intros H.
  apply eliminateAssignAfterBranchTest_inv in H as [[? _] | [_ H]];
    [discriminate|].
  destruct H as (LastInst & Reg & Imm & t & T & Head & tl
                 & Hends & HT & HTi & Hli & _ & ->).
  exists LastInst, Reg, Imm, t, T, Head, tl.
  repeat (split; [done|]). split; [|done].
  unfold getLIOperands in Hli.
  destruct (decide (getOpcode Head = C_LI)); [by left|].
  destruct (decide (getOpcode Head = ADDI)); [right; by left|].
  simpl in Hli. unfold isCopy in Hli.
  case_bool_decide; [right; by right | discriminate].
Qed.

(** X11. The flag of Transform B is exact and it erases at most one
    instruction: it reports a change exactly when the function it leaves
    differs from the given one, and then the function has one instruction
    fewer; in every case the blocks, their order and their predecessor
    lists are kept, and no block grows. *)
Theorem eliminateAssignAfterBranchTest_frame (MF MF' : MachineFunction)
    (b : BlockRef) (Changed : bool) :
  eliminateAssignAfterBranchTest X0 MF b = Ok (Changed, MF') ->
  (Changed = true <-> MF' <> MF)
  /\ shrinksTo MF MF'
  /\ numInsts MF' + (if Changed then 1 else 0) = numInsts MF.
Proof.
  intros H.
  apply eliminateAssignAfterBranchTest_inv in H as [[-> ->] | [-> H]].
  { split; [split; [discriminate | intros []; done]|].
    split; [apply shrinksTo_refl | lia]. }
  destruct H as (LastInst & Reg & Imm & t & T & Head & tl
                 & _ & HT & HTi & _ & _ & ->).
  assert (Hnum : numInsts (<[t := mkBlock tl (Predecessors T)]> MF) + 1
                 = numInsts MF).
  { pose proof (sum_list_with_insert size MF t T
                  (mkBlock tl (Predecessors T)) HT) as Hs.
    assert (HsT : size T = S (length tl)) by (unfold size; by rewrite HTi).
    assert (HsT' : size (mkBlock tl (Predecessors T)) = length tl) by done.
    unfold numInsts, BlockRef in *. lia. }
  split; [|split; [|done]].
  - split; [|done]. intros _ Heq. rewrite Heq in Hnum. lia.
  - apply (shrinksTo_insert MF t T); [done..|].
    unfold size; simpl. rewrite HTi; simpl. lia.
Qed.

(** X12. The check of the predecessors looks at the tested pair only, not
    at the polarity of the branch nor at where it leads: when every
    predecessor of the target ends in a [BEQ] or a [BNE] on the register
    and the immediate that the leading assignment writes, whatever its
    block operand, Transform B erases the assignment.  This includes a
    predecessor [bne r, c, t], which enters [t] when [r] differs from
    [c]. *)
Theorem eliminateAssignAfterBranchTest_ignores_polarity (MF : MachineFunction)
    (b t : BlockRef) (LastInst Head : MachineInstr) (Reg : Register)
    (Imm : int64_t) (T : MachineBasicBlock) (tl : list MachineInstr) :
  endsInRecognizedBranch X0 MF b LastInst Reg (Some Imm) (Some t) ->
  MF !! t = Some T ->
  Insts T = Head :: tl ->
  getLIOperands X0 Head NoRegister None = Ok (true, Reg, Some Imm) ->
  Forall (fun p => exists P init Opc DL tgt,
            MF !! p = Some P
            /\ Insts P = init ++
                 [mkInstr (mkDesc Opc ConditionalBranch)
                    [MO_Register Reg; MO_Immediate Imm; tgt] DL]
            /\ (Opc = BEQ \/ Opc = BNE))
    (Predecessors T) ->
  eliminateAssignAfterBranchTest X0 MF b
    = Ok (true, <[t := mkBlock tl (Predecessors T)]> MF).
Proof.
  intros Hends HT HTi Hli Hpreds.
  rewrite (eliminateAssignAfterBranchTest_recognized _ _ _ _ _ _ _ Hends HT).
  unfold size, front. rewrite HTi; simpl. rewrite Hli; simpl.
  rewrite !bool_decide_eq_true_2 by done. simpl.
  rewrite predecessorsRemovable_passes.
  - simpl. unfold eraseFromParent. by rewrite HT, HTi.
  - eapply Forall_impl; [exact Hpreds|].
    intros p (P & init & Opc & DL & tgt & HP & HPi & Hop).
    exists P. split; [done|]. right. eexists.
    split; [rewrite HPi; apply last_snoc|]. split; [done|].
    unfold getCondBranchOperands, getOperand, getOpcode; simpl.
    by destruct (decide (Opc = BEQ \/ Opc = BNE)) as [_|[]].
Qed.

(** *** Further properties of the driver *)

Lemma eliminateJumpToExitBlock_weight (MF MF' : MachineFunction)
    (b : BlockRef) (Changed : bool) :
  eliminateJumpToExitBlock MF b = Ok (Changed, MF') ->
  shrinksTo MF MF'
  /\ ((Changed = false /\ MF' = MF)
      \/ (Changed = true /\ weight MF' < weight MF)).
Proof.
  intros H.
  apply eliminateJumpToExitBlock_inv in H as [[-> ->] | [-> H]].
  { split; [apply shrinksTo_refl | by left]. }
  destruct H as (B & init & L & t & T & R & HB & Hinsts & Hbr & _ & _ & _ & _ & ->).
  split.
  - apply (shrinksTo_insert MF b B); [done..|].
    unfold size; simpl. rewrite Hinsts, !length_app. done.
  - right. split; [done|].
    pose proof (sum_list_with_insert blockWeight MF b B
      (mkBlock (init ++ [mkInstr PseudoRET_desc [] (getDebugLoc L)])
         (Predecessors B)) HB) as Hs.
    assert (HwB : blockWeight B = sum_list_with instWeight init + 2).
    { assert (instWeight L = 2) as HL by (unfold instWeight; by rewrite Hbr).
      unfold blockWeight. rewrite Hinsts, sum_list_with_app.
      cbn [sum_list_with]. lia. }
    assert (HwB' : blockWeight
              (mkBlock (init ++ [mkInstr PseudoRET_desc [] (getDebugLoc L)])
                 (Predecessors B)) = sum_list_with instWeight init + 1).
    { assert (instWeight (mkInstr PseudoRET_desc [] (getDebugLoc L)) = 1)
        as HR by done.
      unfold blockWeight. cbn [Insts]. rewrite sum_list_with_app.
      cbn [sum_list_with]. lia. }
    unfold weight, BlockRef in *. lia.
Qed.

Lemma eliminateAssignAfterBranchTest_weight (MF MF' : MachineFunction)
    (b : BlockRef) (Changed : bool) :
  eliminateAssignAfterBranchTest X0 MF b = Ok (Changed, MF') ->
  shrinksTo MF MF'
  /\ ((Changed = false /\ MF' = MF)
      \/ (Changed = true /\ weight MF' < weight MF)).
Proof.
  intros H.
  apply eliminateAssignAfterBranchTest_inv in H as [[-> ->] | [-> H]].
  { split; [apply shrinksTo_refl | by left]. }
  destruct H as (LastInst & Reg & Imm & t & T & Head & tl
                 & _ & HT & HTi & _ & _ & ->).
  split.
  - apply (shrinksTo_insert MF t T); [done..|].
    unfold size; simpl. rewrite HTi; simpl. lia.
  - right. split; [done|].
    pose proof (sum_list_with_insert blockWeight MF t T
                  (mkBlock tl (Predecessors T)) HT) as Hs.
    assert (HwT : blockWeight T
                  = instWeight Head + sum_list_with instWeight tl).
    { unfold blockWeight. by rewrite HTi. }
    assert (HwT' : blockWeight (mkBlock tl (Predecessors T))
                   = sum_list_with instWeight tl) by done.
    assert (1 <= instWeight Head).
    { unfold instWeight. destruct (isUnconditionalBranch Head); lia. }
    unfold weight, BlockRef in *. lia.
Qed.

Lemma visitBlocks_progress (MBBs : list BlockRef) (MF MF' : MachineFunction)
    (Changed Changed' : bool) :
  visitBlocks X0 MF Changed MBBs = Ok (Changed', MF') ->
  shrinksTo MF MF'
  /\ (MF' = MF \/ weight MF' < weight MF)
  /\ (MBBs <> [] -> Changed' = true -> weight MF' < weight MF).
Proof.
  revert MF Changed. induction MBBs as [|a MBBs IH]; intros MF Changed H.
  { injection H as <- <-. split; [apply shrinksTo_refl|].
    split; [by left | done]. }
  simpl in H.
  apply bind_Ok in H as ([c1 MF1] & HA & H).
  apply bind_Ok in H as ([c2 MF2] & HB & H).
  apply eliminateJumpToExitBlock_weight in HA as [HsA HwA].
  apply eliminateAssignAfterBranchTest_weight in HB as [HsB HwB].
  pose proof H as Hrest.
  apply IH in H as (Hs & Hw & Hc).
  split; [eauto using shrinksTo_trans|].
  assert (HleA : weight MF1 <= weight MF).
  { destruct HwA as [[_ ->] | [_ ?]]; lia. }
  assert (HleB : weight MF2 <= weight MF1).
  { destruct HwB as [[_ ->] | [_ ?]]; lia. }
  assert (Hle : weight MF' <= weight MF2).
  { destruct Hw as [-> | ?]; lia. }
  split.
  - destruct HwA as [[_ ->] | [_ ?]]; [|right; lia].
    destruct HwB as [[_ ->] | [_ ?]]; [|right; lia].
    destruct Hw as [-> | ?]; [by left | right; lia].
  - intros _ Hc'. destruct MBBs as [|a' MBBs].
    + simpl in Hrest. injection Hrest as Hflag HMF. subst Changed' MF'.
      apply orb_true_iff in Hc' as [-> | ->].
      * destruct HwA as [[? _] | [_ ?]]; [discriminate | lia].
      * destruct HwB as [[? _] | [_ ?]]; [discriminate | lia].
    + assert (weight MF' < weight MF2) by (by apply Hc). lia.
Qed.

(** X13. On a function with at least one block, the flag that the driver
    returns is the disjunction of the flags of the two transforms on the
    last block of the layout: whatever happened to the blocks before it is
    not reported. *)
Theorem runOnMachineFunction_last_block (MF : MachineFunction)
    (B : MachineBasicBlock) :
  runOnMachineFunction X0 (MF ++ [B]) =
    '(_, MF1) ← visitBlocks X0 (MF ++ [B]) false (seq 0 (length MF));
    '(Changed, MF2) ← eliminateJumpToExitBlock MF1 (length MF);
    '(Changed', MF3) ← eliminateAssignAfterBranchTest X0 MF2 (length MF);
    mret (Changed || Changed', MF3).
Proof.
  unfold runOnMachineFunction.
  rewrite length_app; simpl. rewrite Nat.add_1_r, seq_S; simpl.
  apply visitBlocks_snoc.
Qed.

(** X14. The driver keeps the shape of the function: the function it
    leaves has the same blocks in the same order, every block has the
    predecessor list it had, and no block has more instructions than
    before; in particular the number of instructions does not grow. *)
Theorem runOnMachineFunction_shrinks (MF MF' : MachineFunction)
    (Changed : bool) :
  runOnMachineFunction X0 MF = Ok (Changed, MF') ->
  shrinksTo MF MF'
  /\ length MF' = length MF
  /\ numInsts MF' <= numInsts MF.
Proof.
  unfold runOnMachineFunction. intros H.
  apply visitBlocks_progress in H as (Hs & _ & _).
  split; [done|]. split; [|by apply shrinksTo_numInsts].
  symmetry. by eapply Forall2_length.
Qed.

(** X15. The driver never reports a change that did not happen: when it
    returns true, the function it leaves differs from the given one.  More
    precisely every run either leaves the function as it is or strictly
    decreases its weight (the number of instructions plus the number of
    unconditional branches), and a run that returns true decreases it, so
    that the pass can modify a function only that many times in a row. *)
Theorem runOnMachineFunction_true_modified (MF MF' : MachineFunction)
    (Changed : bool) :
  runOnMachineFunction X0 MF = Ok (Changed, MF') ->
  (MF' = MF \/ weight MF' < weight MF)
  /\ (Changed = true -> weight MF' < weight MF /\ MF' <> MF).
Proof.
  unfold runOnMachineFunction. intros H.
  pose proof H as H'.
  apply visitBlocks_progress in H as (_ & Hw & Hc).
  split; [done|]. intros ->.
  destruct (seq 0 (length MF)) as [|a l] eqn:Hseq.
  { injection H' as ? _. discriminate. }
  assert (Hlt : weight MF' < weight MF) by (by apply Hc).
  split; [done|]. intros ->. lia.
Qed.

(** *** How the steps compose *)

(** X16. The loop over the predecessors stops at the first one that fails:
    on a list [Preds1 ++ Preds2] it runs on [Preds1], and goes on to
    [Preds2] only if every predecessor of [Preds1] has passed; after a
    failure the later predecessors are not looked at. *)
Theorem predecessorsRemovable_app (MF : MachineFunction) (Dst : Register)
    (Imm : int64_t) (Preds1 Preds2 : list BlockRef) :
  predecessorsRemovable X0 MF Dst Imm (Preds1 ++ Preds2) =
    Removable ← predecessorsRemovable X0 MF Dst Imm Preds1;
    if Removable : bool then predecessorsRemovable X0 MF Dst Imm Preds2
    else mret false.
Proof.
  induction Preds1 as [|p Preds1 IH]; simpl; [done|].
  destruct (block MF p) as [P|]; simpl; [|done].
  destruct (empty P); [done|].
  destruct (back P) as [PLast|]; simpl; [|done].
  destruct (isConditionalBranch PLast); simpl; [|done].
  destruct (getCondBranchOperands X0 MF p PLast NoRegister None None)
    as [[[[Res PReg] PImm] T']|]; simpl; [|done].
  destruct Res; simpl; [|done].
  destruct (load PImm) as [i|]; simpl; [|done].
  by destruct (bool_decide (PReg = Dst) && bool_decide (i = Imm)).
Qed.

(** X17. On one block at most one of the two transforms has an effect:
    when Transform A has rewritten the block, the block ends in a return,
    and Transform B, which the driver runs next on that block, reports no
    change and leaves the function as it is. *)
Theorem eliminateAssignAfterBranchTest_after_jump (MF MF1 : MachineFunction)
    (b : BlockRef) :
  eliminateJumpToExitBlock MF b = Ok (true, MF1) ->
  eliminateAssignAfterBranchTest X0 MF1 b = Ok (false, MF1).
Proof.
  intros H.
  apply eliminateJumpToExitBlock_inv in H as [[? _] | [_ H]]; [discriminate|].
  destruct H as (B & init & L & t & T & R & HB & _ & _ & _ & _ & _ & _ & ->).
  assert (Hlt : b < length MF) by (by eapply lookup_lt_Some).
  unfold eliminateAssignAfterBranchTest, block.
  rewrite list_lookup_insert_eq by done. simpl.
  unfold empty, back; simpl. rewrite last_snoc.
  by destruct init.
Qed.

Lemma visitBlocks_no_branch (MBBs : list BlockRef) (MF : MachineFunction)
    (Changed : bool) :
  Forall (fun B => Insts B = []
                   \/ exists L, last (Insts B) = Some L
                        /\ isUnconditionalBranch L = false
                        /\ isConditionalBranch L = false) MF ->
  Forall (fun a => a < length MF) MBBs ->
  visitBlocks X0 MF Changed MBBs
  = Ok (match MBBs with [] => Changed | _ => false end, MF).
Proof.
  intros HMF. revert Changed.
  induction MBBs as [|a MBBs IH]; intros Changed Hl; [done|].
  apply Forall_cons in Hl as [Ha Hl].
  destruct (lookup_lt_is_Some_2 MF a Ha) as [B HB].
  assert (HBP := proj1 (Forall_lookup _ MF) HMF a B HB). simpl in HBP.
  assert (HA : eliminateJumpToExitBlock MF a = Ok (false, MF)).
  { unfold eliminateJumpToExitBlock, block, BlockRef in *. rewrite HB; simpl.
    destruct HBP as [Hnil | (L & HL & Hu & _)].
    - unfold empty. by rewrite Hnil.
    - destruct (back_last B L HL) as [-> ->]; simpl. by rewrite Hu. }
  assert (HBt : eliminateAssignAfterBranchTest X0 MF a = Ok (false, MF)).
  { unfold eliminateAssignAfterBranchTest, block, BlockRef in *.
    rewrite HB; simpl.
    destruct HBP as [Hnil | (L & HL & _ & Hc)].
    - unfold empty. by rewrite Hnil.
    - destruct (back_last B L HL) as [-> ->]; simpl. by rewrite Hc. }
  simpl. rewrite HA; simpl. rewrite HBt; simpl.
  rewrite (IH _ Hl). by destruct MBBs.
Qed.

(** X18. On a function none of whose blocks ends in a branch (each block is
    empty or ends in an instruction that is neither an unconditional nor a
    conditional branch) the pass is the identity: it returns false, leaves
    the function as it is, and none of its accesses is undefined. *)
Theorem runOnMachineFunction_no_branch (MF : MachineFunction) :
  Forall (fun B => Insts B = []
                   \/ exists L, last (Insts B) = Some L
                        /\ isUnconditionalBranch L = false
                        /\ isConditionalBranch L = false) MF ->
  runOnMachineFunction X0 MF = Ok (false, MF).
Proof.
  intros HMF. unfold runOnMachineFunction.
  rewrite (visitBlocks_no_branch _ _ _ HMF).
  - by destruct (seq 0 (length MF)).
  - apply Forall_forall. intros a Ha. apply elem_of_seq in Ha. lia.
Qed.

End Properties.

(** ** The statements on the sample functions *)

(** On [sampleAssign] the branch of bb0 tests [(r5, 7)] towards bb2, bb2
    starts with [li r5, 7], its predecessor bb0 proves [(r5, 7)] on its
    "equal" edge into bb2 and its predecessor bb1 is empty: the assignment
    is erased. *)
Lemma eliminateAssignAfterBranchTest_removes_witness :
  endsInRecognizedBranch sampleX0 sampleAssign 0 (sampleBEQ 5%N 7%Z 2)
    5%N (Some 7%Z) (Some 2)
  /\ sampleAssign !! 2 = Some (mkBlock [sampleLI 5%N 7%Z; sampleRET] [0; 1])
  /\ Forall (predecessorProves sampleX0 sampleAssign 5%N 7%Z 2) [0; 1]
  /\ eliminateAssignAfterBranchTest sampleX0 sampleAssign 0
       = Ok (true, sampleAssign_erased).
Proof.
  assert (Hends : endsInRecognizedBranch sampleX0 sampleAssign 0
                    (sampleBEQ 5%N 7%Z 2) 5%N (Some 7%Z) (Some 2)).
  { exists (mkBlock [sampleBEQ 5%N 7%Z 2] []).
    split; [reflexivity|]. split; [reflexivity|]. split; reflexivity. }
  assert (Hpreds : Forall (predecessorProves sampleX0 sampleAssign 5%N 7%Z 2)
                     [0; 1]).
  { apply Forall_cons. split.
    - right. exists (mkBlock [sampleBEQ 5%N 7%Z 2] []), (sampleBEQ 5%N 7%Z 2).
      split; [reflexivity|]. split; [reflexivity|]. split; reflexivity.
    - apply Forall_cons. split; [|apply Forall_nil_2].
      left. exists (mkBlock [] [0]). split; reflexivity. }
  split; [exact Hends|]. split; [reflexivity|]. split; [exact Hpreds|].
  apply (proj1 (eliminateAssignAfterBranchTest_removes sampleX0
                  sampleAssign 0 2 _ _ _ _ Hends eq_refl)).
  - exists (sampleLI 5%N 7%Z). split; reflexivity.
  - exact Hpreds.
Defined.

(** C1, the claim as stated fails: on [sampleAssign] the leading
    assignment of bb2 is erased although bb1, a predecessor of bb2, is
    empty, so that not every predecessor proves [(r5, 7)] in the words of
    the specification. *)
Lemma eliminateAssignAfterBranchTest_empty_predecessor :
  endsInRecognizedBranch sampleX0 sampleAssign 0 (sampleBEQ 5%N 7%Z 2)
    5%N (Some 7%Z) (Some 2)
  /\ eliminateAssignAfterBranchTest sampleX0 sampleAssign 0
       = Ok (true, sampleAssign_erased)
  /\ sampleAssign_erased <> sampleAssign
  /\ ~ specRemovable sampleX0 sampleAssign 5%N 7%Z 2
         (mkBlock [sampleLI 5%N 7%Z; sampleRET] [0; 1]).
Proof.
  split.
  { exists (mkBlock [sampleBEQ 5%N 7%Z 2] []).
    split; [reflexivity|]. split; [reflexivity|]. split; reflexivity. }
  split; [reflexivity|]. split; [discriminate|].
  intros (Head & _ & _ & Hpreds).
  apply Forall_cons in Hpreds as [_ Hpreds].
  apply Forall_cons in Hpreds as [(P & PLast & HP & Hlast & _) _].
  injection HP as <-. discriminate.
Qed.

Lemma eliminateJumpToExitBlock_spec_witness :
  sampleJump !! 0 = Some (mkBlock [sampleJ 1] [])
  /\ Insts (mkBlock [sampleJ 1] []) = [] ++ [sampleJ 1]
  /\ isUnconditionalBranch (sampleJ 1) = true
  /\ getOperand (sampleJ 1) 0 = Ok (MO_MachineBasicBlock 1)
  /\ sampleJump !! 1 = Some (mkBlock [sampleRET] [0])
  /\ eliminateJumpToExitBlock sampleJump 0 = Ok (true, sampleJump_threaded).
Proof.
  repeat (split; [reflexivity|]).
  apply (proj1 (eliminateJumpToExitBlock_spec sampleJump 0 1
                  (mkBlock [sampleJ 1] []) (mkBlock [sampleRET] [0])
                  [] (sampleJ 1) eq_refl eq_refl eq_refl eq_refl eq_refl)).
  exists sampleRET. split; reflexivity.
Defined.

Lemma getLIOperands_forms_witness :
  getLIOperands sampleX0 (sampleLI 5%N 7%Z) NoRegister None
    = Ok (true, 5%N, Some 7%Z)
  /\ getOpcode sampleRET <> C_LI /\ getOpcode sampleRET <> ADDI
  /\ getOpcode sampleRET <> COPY
  /\ getLIOperands sampleX0 sampleRET NoRegister None
       = Ok (false, NoRegister, None)
  /\ (MO_Register 6%N <> MO_Register sampleX0
      \/ isImm (MO_Immediate 7%Z) = false)
  /\ (isImm (MO_Register 6%N) = false
      \/ MO_Immediate 7%Z <> MO_Register sampleX0)
  /\ getLIOperands sampleX0 sampleADDI NoRegister None
       = Ok (false, 5%N, None)
  /\ getLIOperands sampleX0
       (sampleInst COPY Ordinary [MO_Register 5%N; MO_Register 6%N] None)
       NoRegister None = Ok (false, NoRegister, None).
Proof.
  pose proof (getLIOperands_forms sampleX0 5%N 7%Z Ordinary None []
                NoRegister None)
    as (Hli & _ & _ & _ & Hother & Haddi & Hcopy).
  split; [exact Hli|].
  assert (H1 : getOpcode sampleRET <> C_LI) by discriminate.
  assert (H2 : getOpcode sampleRET <> ADDI) by discriminate.
  assert (H3 : getOpcode sampleRET <> COPY) by discriminate.
  split; [exact H1|]. split; [exact H2|]. split; [exact H3|].
  split; [exact (Hother sampleRET H1 H2 H3)|].
  assert (H4 : MO_Register 6%N <> MO_Register sampleX0
               \/ isImm (MO_Immediate 7%Z) = false) by (left; discriminate).
  assert (H5 : isImm (MO_Register 6%N) = false
               \/ MO_Immediate 7%Z <> MO_Register sampleX0)
    by (left; reflexivity).
  split; [exact H4|]. split; [exact H5|].
  split; [exact (Haddi (MO_Register 6%N) (MO_Immediate 7%Z) H4 H5)|].
  apply (Hcopy (MO_Register 5%N) (MO_Register 6%N)). discriminate.
Defined.

(** On [sampleMismatch] the predecessor bb1 tests another constant: no
    change is reported and the function is as before. *)
Lemma eliminateAssignAfterBranchTest_unchanged_witness :
  eliminateAssignAfterBranchTest sampleX0 sampleMismatch 0
    = Ok (false, sampleMismatch)
  /\ sampleMismatch = sampleMismatch.
Proof.
  split; [reflexivity|].
  apply (eliminateAssignAfterBranchTest_unchanged sampleX0 sampleMismatch
           sampleMismatch 0 eq_refl).
Defined.

Lemma getLIOperands_no_match_frame_witness :
  getLIOperands sampleX0 sampleADDI NoRegister None = Ok (false, 5%N, None)
  /\ @None int64_t = None
  /\ getOperand sampleADDI 0 = Ok (MO_Register 5%N).
Proof.
  split; [reflexivity|].
  destruct (getLIOperands_no_match_frame sampleX0 sampleADDI NoRegister 5%N
              None None false eq_refl) as [_ H].
  destruct (H eq_refl) as (Himm & _ & Hreg).
  split; [exact Himm | exact (Hreg eq_refl)].
Defined.

(** C7, the claim as stated fails: [getLIOperands] does not recognize
    [addi r5, r6, 7], and yet the register out-parameter, which held the
    null register on entry, holds [r5] on exit. *)
Lemma getLIOperands_ADDI_clobbers_Reg :
  getLIOperands sampleX0 sampleADDI NoRegister None = Ok (false, 5%N, None)
  /\ 5%N <> NoRegister.
Proof. split; [reflexivity | discriminate]. Qed.

(** On [sampleLastBNE] the only block ends in a recognized [bne] and has
    no fallthrough: Transform B dereferences the null target. *)
Lemma eliminateAssignAfterBranchTest_null_target_witness :
  getFallThrough sampleLastBNE 0 = None
  /\ eliminateAssignAfterBranchTest sampleX0 sampleLastBNE 0 = Fault NullBlock.
Proof.
  split; [reflexivity|].
  apply (proj1 (eliminateAssignAfterBranchTest_null_target sampleX0
                  sampleLastBNE 0)).
  eexists _, 5%N, (Some 7%Z). split.
  - eexists. split; [reflexivity|]. split; [reflexivity|].
    split; reflexivity.
  - split; [left; reflexivity | reflexivity].
Defined.

Lemma getCondBranchOperands_C_BEQZ_operand2_witness :
  getOpcode sampleBEQZ = C_BEQZ
  /\ Operands sampleBEQZ !! 0 = Some (MO_Register 5%N)
  /\ length (Operands sampleBEQZ) <= 2
  /\ getCondBranchOperands sampleX0 sampleJump 0 sampleBEQZ NoRegister None
       (Some None) = Fault OperandOutOfRange.
Proof.
  assert (Hlen : length (Operands sampleBEQZ) <= 2) by (simpl; lia).
  split; [reflexivity|]. split; [reflexivity|]. split; [exact Hlen|].
  apply (getCondBranchOperands_C_BEQZ_operand2 sampleX0 sampleJump 0
           sampleBEQZ 5%N NoRegister None None eq_refl eq_refl).
  exact Hlen.
Defined.

Lemma getCondBranchOperands_reject_writes_target_witness :
  (getOpcode sampleBNEImm = BEQ \/ getOpcode sampleBNEImm = BNE)
  /\ getCondBranchOperands sampleX0 sampleAssign 0 sampleBNEImm NoRegister
       None (Some None) = Ok (false, NoRegister, None, Some (Some 1))
  /\ Some (Some 1) = Some (getFallThrough sampleAssign 0).
Proof.
  assert (Hop : getOpcode sampleBNEImm = BEQ \/ getOpcode sampleBNEImm = BNE)
    by (right; reflexivity).
  split; [exact Hop|]. split; [reflexivity|].
  destruct (getCondBranchOperands_reject_writes_target sampleX0 sampleAssign
              0 sampleBNEImm NoRegister NoRegister None None None
              (Some (Some 1)) Hop eq_refl) as (_ & _ & _ & H).
  exact (H eq_refl).
Defined.

(** C5, the driver on [sampleJump]: Transform A rewrites bb0, nothing
    changes in bb1, the last block, and the driver returns false although
    the function has been modified. *)
Theorem runOnMachineFunction_underreports :
  runOnMachineFunction sampleX0 sampleJump = Ok (false, sampleJump_threaded)
  /\ eliminateJumpToExitBlock sampleJump 0 = Ok (true, sampleJump_threaded)
  /\ sampleJump_threaded <> sampleJump.
Proof. split; [reflexivity|]. split; [reflexivity | discriminate]. Qed.

(** ** The further properties on the sample functions *)

Lemma getLIOperands_match_inv_witness :
  getLIOperands sampleX0 (sampleLI 5%N 7%Z) NoRegister None
    = Ok (true, 5%N, Some 7%Z)
  /\ getOpcode (sampleLI 5%N 7%Z) = C_LI.
Proof.
  split; [reflexivity|].
  destruct (getLIOperands_match_inv sampleX0 (sampleLI 5%N 7%Z) NoRegister
              5%N None (Some 7%Z) eq_refl) as [[H _] | [[H _] | [H _]]];
    [exact H | discriminate H | discriminate H].
Defined.

Lemma getCondBranchOperands_operand_order_witness :
  (BEQ = BEQ \/ BEQ = BNE)
  /\ (isImm (MO_Immediate 7%Z) = true \/ MO_Immediate 7%Z = MO_Register sampleX0)
  /\ getCondBranchOperands sampleX0 sampleAssign 0
       (mkInstr (mkDesc BEQ ConditionalBranch)
          [MO_Immediate 7%Z; MO_Register 5%N; MO_MachineBasicBlock 2] None)
       NoRegister None None
     = Ok (true, 5%N, Some 7%Z, None).
Proof.
  split; [left; reflexivity|]. split; [left; reflexivity|].
  exact (proj2 (getCondBranchOperands_operand_order sampleX0 sampleAssign 0
                  BEQ ConditionalBranch None 5%N (MO_Immediate 7%Z)
                  [MO_MachineBasicBlock 2] NoRegister None None
                  (or_introl eq_refl) (or_introl eq_refl))).
Defined.

Lemma getCondBranchOperands_no_target_polarity_witness :
  Operands (sampleBEQ 5%N 7%Z 3) = Operands (sampleBNE 5%N 7%Z 3)
  /\ getCondBranchOperands sampleX0 samplePolarity 0 (sampleBEQ 5%N 7%Z 3)
       NoRegister None None
     = getCondBranchOperands sampleX0 samplePolarity 1 (sampleBNE 5%N 7%Z 3)
         NoRegister None None.
Proof.
  split; [reflexivity|].
  apply (getCondBranchOperands_no_target_polarity sampleX0 samplePolarity
           samplePolarity 0 1 (sampleBEQ 5%N 7%Z 3) (sampleBNE 5%N 7%Z 3)
           NoRegister None eq_refl).
  left. split; [left; reflexivity | right; reflexivity].
Defined.

Lemma getCondBranchOperands_accept_inv_witness :
  getCondBranchOperands sampleX0 sampleAssign 0 (sampleBEQ 5%N 7%Z 2)
    NoRegister None None = Ok (true, 5%N, Some 7%Z, None)
  /\ (getOpcode (sampleBEQ 5%N 7%Z 2) = BEQ
      \/ getOpcode (sampleBEQ 5%N 7%Z 2) = BNE).
Proof.
  split; [reflexivity|].
  destruct (getCondBranchOperands_accept_inv sampleX0 sampleAssign 0
              (sampleBEQ 5%N 7%Z 2) NoRegister 5%N None (Some 7%Z) None None
              eq_refl) as [[H _] | [[H | H] _]];
    [exact H | discriminate H | discriminate H].
Defined.

Lemma eliminateJumpToExitBlock_changed_inv_witness :
  eliminateJumpToExitBlock sampleJump 0 = Ok (true, sampleJump_threaded)
  /\ exists LastInst t T R,
       isUnconditionalBranch LastInst = true
       /\ Operands LastInst !! 0 = Some (MO_MachineBasicBlock t)
       /\ sampleJump !! t = Some T
       /\ Insts T = [R] /\ isReturn R = true.
Proof.
  split; [reflexivity|].
  destruct (eliminateJumpToExitBlock_changed_inv sampleJump
              sampleJump_threaded 0 eq_refl)
    as (B & init & L & t & T & R & _ & _ & Hbr & Ht & HT & HR & Hret & _).
  exists L, t, T, R.
  split; [exact Hbr|].
  split; [exact Ht|]. split; [exact HT|]. split; [exact HR | exact Hret].
Defined.

Lemma eliminateJumpToExitBlock_frame_witness :
  eliminateJumpToExitBlock sampleJump 0 = Ok (true, sampleJump_threaded)
  /\ sampleJump_threaded <> sampleJump
  /\ sampleJump_threaded !! 1 = sampleJump !! 1.
Proof.
  split; [reflexivity|].
  destruct (eliminateJumpToExitBlock_frame sampleJump sampleJump_threaded 0
              true eq_refl) as (Hflag & Hother & _).
  split; [exact (proj1 Hflag eq_refl)|].
  apply Hother. discriminate.
Defined.

Lemma eliminateJumpToExitBlock_idempotent_witness :
  eliminateJumpToExitBlock sampleJump 0 = Ok (true, sampleJump_threaded)
  /\ eliminateJumpToExitBlock sampleJump_threaded 0
     = Ok (false, sampleJump_threaded).
Proof.
  split; [reflexivity|].
  exact (eliminateJumpToExitBlock_idempotent sampleJump sampleJump_threaded
           0 true eq_refl).
Defined.

Lemma eliminateJumpToExitBlock_defined_iff_witness :
  sampleJump !! 0 = Some (mkBlock [sampleJ 1] [])
  /\ is_Ok (eliminateJumpToExitBlock sampleJump 0).
Proof.
  split; [reflexivity|].
  apply (proj2 (eliminateJumpToExitBlock_defined_iff sampleJump 0
                  (mkBlock [sampleJ 1] []) eq_refl)).
  right. exists (sampleJ 1). split; [reflexivity|]. right.
  exists 1. split; [reflexivity|]. eexists. reflexivity.
Defined.

Lemma eliminateAssignAfterBranchTest_changed_inv_witness :
  eliminateAssignAfterBranchTest sampleX0 sampleAssign 0
    = Ok (true, sampleAssign_erased)
  /\ exists t T Head tl,
       sampleAssign !! t = Some T
       /\ Insts T = Head :: tl
       /\ (getOpcode Head = C_LI \/ getOpcode Head = ADDI
           \/ getOpcode Head = COPY)
       /\ sampleAssign_erased = <[t := mkBlock tl (Predecessors T)]> sampleAssign.
Proof.
  split; [reflexivity|].
  destruct (eliminateAssignAfterBranchTest_changed_inv sampleX0 sampleAssign
              sampleAssign_erased 0 eq_refl)
    as (L & Reg & Imm & t & T & Head & tl & _ & HT & HTi & _ & Hop & HMF).
  exists t, T, Head, tl.
  split; [exact HT|]. split; [exact HTi|]. split; [exact Hop | exact HMF].
Defined.

Lemma eliminateAssignAfterBranchTest_frame_witness :
  eliminateAssignAfterBranchTest sampleX0 sampleAssign 0
    = Ok (true, sampleAssign_erased)
  /\ sampleAssign_erased <> sampleAssign
  /\ numInsts sampleAssign_erased + 1 = numInsts sampleAssign.
Proof.
  split; [reflexivity|].
  destruct (eliminateAssignAfterBranchTest_frame sampleX0 sampleAssign
              sampleAssign_erased 0 true eq_refl) as (Hflag & _ & Hnum).
  split; [exact (proj1 Hflag eq_refl) | exact Hnum].
Defined.

(** On [samplePolarity] the predecessor bb1 ends in [bne r5, 7, bb3], which
    enters bb3 when r5 is not 7; the assignment [li r5, 7] at the head of
    bb3 is erased all the same. *)
Lemma eliminateAssignAfterBranchTest_ignores_polarity_witness :
  endsInRecognizedBranch sampleX0 samplePolarity 0 (sampleBEQ 5%N 7%Z 3)
    5%N (Some 7%Z) (Some 3)
  /\ samplePolarity !! 3 = Some (mkBlock [sampleLI 5%N 7%Z; sampleRET] [0; 1])
  /\ eliminateAssignAfterBranchTest sampleX0 samplePolarity 0
     = Ok (true, samplePolarity_erased).
Proof.
  assert (Hends : endsInRecognizedBranch sampleX0 samplePolarity 0
                    (sampleBEQ 5%N 7%Z 3) 5%N (Some 7%Z) (Some 3)).
  { exists (mkBlock [sampleBEQ 5%N 7%Z 3] []).
    split; [reflexivity|]. split; [reflexivity|]. split; reflexivity. }
  split; [exact Hends|]. split; [reflexivity|].
  apply (eliminateAssignAfterBranchTest_ignores_polarity sampleX0
           samplePolarity 0 3 (sampleBEQ 5%N 7%Z 3) (sampleLI 5%N 7%Z) 5%N 7%Z
           (mkBlock [sampleLI 5%N 7%Z; sampleRET] [0; 1]) [sampleRET]
           Hends eq_refl eq_refl eq_refl).
  apply Forall_cons. split.
  - exists (mkBlock [sampleBEQ 5%N 7%Z 3] []), [], BEQ, None,
      (MO_MachineBasicBlock 3).
    split; [reflexivity|]. split; [reflexivity | left; reflexivity].
  - apply Forall_cons. split; [|apply Forall_nil_2].
    exists (mkBlock [sampleBNE 5%N 7%Z 3] [0]), [], BNE, None,
      (MO_MachineBasicBlock 3).
    split; [reflexivity|]. split; [reflexivity | right; reflexivity].
Defined.

Lemma runOnMachineFunction_shrinks_witness :
  runOnMachineFunction sampleX0 samplePolarity
    = Ok (false, samplePolarity_erased)
  /\ length samplePolarity_erased = length samplePolarity
  /\ numInsts samplePolarity_erased <= numInsts samplePolarity.
Proof.
  split; [reflexivity|].
  destruct (runOnMachineFunction_shrinks sampleX0 samplePolarity
              samplePolarity_erased false eq_refl) as (_ & Hlen & Hnum).
  split; [exact Hlen | exact Hnum].
Defined.

Lemma runOnMachineFunction_true_modified_witness :
  runOnMachineFunction sampleX0 sampleJumpLast
    = Ok (true, sampleJumpLast_threaded)
  /\ sampleJumpLast_threaded <> sampleJumpLast.
Proof.
  split; [reflexivity|].
  destruct (runOnMachineFunction_true_modified sampleX0 sampleJumpLast
              sampleJumpLast_threaded true eq_refl) as [_ H].
  exact (proj2 (H eq_refl)).
Defined.

Lemma eliminateAssignAfterBranchTest_after_jump_witness :
  eliminateJumpToExitBlock sampleJump 0 = Ok (true, sampleJump_threaded)
  /\ eliminateAssignAfterBranchTest sampleX0 sampleJump_threaded 0
     = Ok (false, sampleJump_threaded).
Proof.
  split; [reflexivity|].
  exact (eliminateAssignAfterBranchTest_after_jump sampleX0 sampleJump
           sampleJump_threaded 0 eq_refl).
Defined.

Lemma runOnMachineFunction_no_branch_witness :
  Forall (fun B => Insts B = []
                   \/ exists L, last (Insts B) = Some L
                        /\ isUnconditionalBranch L = false
                        /\ isConditionalBranch L = false) sampleStraight
  /\ runOnMachineFunction sampleX0 sampleStraight = Ok (false, sampleStraight).
Proof.
  assert (H : Forall (fun B => Insts B = []
                   \/ exists L, last (Insts B) = Some L
                        /\ isUnconditionalBranch L = false
                        /\ isConditionalBranch L = false) sampleStraight).
  { apply Forall_cons. split; [|apply Forall_nil_2].
    right. exists sampleRET. split; [reflexivity|]. split; reflexivity. }
  split; [exact H|].
  exact (runOnMachineFunction_no_branch sampleX0 sampleStraight H).
Defined.
